(** * CAN signal codec, log-line parser and DBC serializer

    A shallow embedding of the Python tools under [tools/parsers]:
    - [decode_log_from_csv.py]   (module [DecodeLog]),
    - [decode_frame_from_csv.py] (module [DecodeFrame]),
    - [csv_to_dbc.py]            (module [CsvToDbc]).

    Python integers are unbounded, so they are [Z]; [bytes] objects are
    [list Byte.byte]; [str] objects are [string]s whose characters are the
    code points below 256.  Code that can raise returns a [result]. *)

From Stdlib Require Import ZArith Lia Ascii String.
From Stdlib Require Strings.Byte.
From Stdlib Require Import SpecFloat.
From stdpp Require Import base list list_monad strings gmap sorting.

Local Open Scope Z_scope.

(** ** Python values and exceptions *)

Module Py.

Inductive exn : Set :=
  | ValueError | IndexError | KeyError | AttributeError | OverflowError
  | TypeError.

Inductive result (A : Type) : Type :=
  | Ok (a : A)
  | Raise (e : exn).
Arguments Ok {A} a.
Arguments Raise {A} e.

#[export] Instance result_ret : MRet result := fun A a => Ok a.
#[export] Instance result_bind : MBind result := fun A B f m =>
  match m with Ok a => f a | Raise e => Raise e end.
#[export] Instance result_fmap : FMap result := fun A B f m =>
  match m with Ok a => Ok (f a) | Raise e => Raise e end.

Definition is_ok {A} (m : result A) : bool :=
  match m with Ok _ => true | Raise _ => false end.

(** [b] as the integer Python yields when a [bytes] object is subscripted. *)
Definition byte_to_Z (b : Byte.byte) : Z := Z.of_N (Byte.to_N b).

(** [data[k]] on a [bytes] object: a negative subscript counts from the
    end, anything outside [-len, len) raises [IndexError]. *)
Definition bytes_getitem (data : list Byte.byte) (k : Z) : result Z :=
  let n := Z.of_nat (length data) in
  let k' := if k <? 0 then k + n else k in
  if (0 <=? k') && (k' <? n) then
    match data !! Z.to_nat k' with
    | Some b => Ok (byte_to_Z b)
    | None => Raise IndexError
    end
  else Raise IndexError.

(** [a << n] and [a >> n]: a negative shift count is a [ValueError]. *)
Definition lshift (a n : Z) : result Z :=
  if n <? 0 then Raise ValueError else Ok (a ≪ n).
Definition rshift (a n : Z) : result Z :=
  if n <? 0 then Raise ValueError else Ok (a ≫ n).

(** [range(n)] *)
Definition range (n : Z) : list Z := seqZ 0 n.

(** [int.from_bytes(data, byteorder="little", signed=False)] *)
Fixpoint int_from_bytes_little (data : list Byte.byte) : Z :=
  match data with
  | [] => 0
  | b :: rest => byte_to_Z b + 256 * int_from_bytes_little rest
  end.

End Py.
Import Py.

(** ** The bit-field codec (shared verbatim by both decoders) *)

Module Codec.

(** [get_little_endian(data8, start_bit, bit_len)] *)
Definition get_little_endian (data8 : list Byte.byte) (start_bit bit_len : Z)
  : result Z :=
  let val := int_from_bytes_little data8 in
  m ← lshift 1 bit_len;
  let mask := m - 1 in
  v ← rshift val start_bit;
  Ok (Z.land v mask).

(** One iteration of the loop body of [get_big_endian]. *)
Definition be_step (data8 : list Byte.byte) (start_bit : Z) (result i : Z)
  : Py.result Z :=
  let bit_index := start_bit + i in
  let byte_index := bit_index `div` 8 in
  let bit_in_byte := 7 - bit_index `mod` 8 in
  b ← bytes_getitem data8 byte_index;
  s ← rshift b bit_in_byte;
  let bit := Z.land s 1 in
  r ← lshift result 1;
  Ok (Z.lor r bit).

(** The [for i in range(bit_len)] loop, threading [result]. *)
Fixpoint be_loop (data8 : list Byte.byte) (start_bit : Z) (idxs : list Z) (result : Z)
  : Py.result Z :=
  match idxs with
  | [] => Ok result
  | i :: idxs' =>
      r ← be_step data8 start_bit result i;
      be_loop data8 start_bit idxs' r
  end.

(** [get_big_endian(data8, start_bit, bit_len)] *)
Definition get_big_endian (data8 : list Byte.byte) (start_bit bit_len : Z)
  : result Z :=
  be_loop data8 start_bit (range bit_len) 0.

(** The values [byte_index] takes over the iterations of the loop, in
    order: the subscripts with which [data8] is read. *)
Definition be_subscripts (start_bit bit_len : Z) : list Z :=
  (fun i => (start_bit + i) `div` 8) <$> range bit_len.

(** [to_signed(value, bit_len)] *)
Definition to_signed (value bit_len : Z) : result Z :=
  sign_bit ← lshift 1 (bit_len - 1);
  if negb (Z.land value sign_bit =? 0) then
    m ← lshift 1 bit_len;
    Ok (value - m)
  else Ok value.

(** *** Reference definitions, following the prose of the specification *)

(** The eight bytes read as one little-endian unsigned 64-bit integer. *)
Definition u64_le (data8 : list Byte.byte) : Z :=
  match data8 with
  | [b0; b1; b2; b3; b4; b5; b6; b7] =>
      byte_to_Z b0 + byte_to_Z b1 * 2 ^ 8 + byte_to_Z b2 * 2 ^ 16
      + byte_to_Z b3 * 2 ^ 24 + byte_to_Z b4 * 2 ^ 32 + byte_to_Z b5 * 2 ^ 40
      + byte_to_Z b6 * 2 ^ 48 + byte_to_Z b7 * 2 ^ 56
  | _ => 0
  end.

(** Shift right by [start_bit], keep the low [bit_len] bits.  The shifts
    are Python's, which reject a negative count. *)
Definition le_by_words (data8 : list Byte.byte) (start_bit bit_len : Z) : result Z :=
  if (start_bit <? 0) || (bit_len <? 0) then Raise ValueError
  else Ok (Z.land (u64_le data8 ≫ start_bit) (1 ≪ bit_len - 1)).

(** The bit at absolute Motorola index [start_bit + i]. *)
Definition be_bit (data8 : list Byte.byte) (start_bit i : Z) : result Z :=
  let bit_index := start_bit + i in
  b ← bytes_getitem data8 (bit_index `div` 8);
  Ok (Z.land (b ≫ (7 - bit_index `mod` 8)) 1).

(** The integer whose binary digits are [bits], first digit most significant. *)
Fixpoint msb_first (bits : list Z) : Z :=
  match bits with
  | [] => 0
  | b :: bs => b * 2 ^ Z.of_nat (length bs) + msb_first bs
  end.

Definition be_by_words (data8 : list Byte.byte) (start_bit bit_len : Z) : result Z :=
  msb_first <$> mapM (be_bit data8 start_bit) (range bit_len).

(** Frame bit [k] in Motorola numbering: bit 0 is the top bit of byte 0. *)
Definition frame_bit_be (data8 : list Byte.byte) (k : Z) : bool :=
  match data8 !! Z.to_nat (k `div` 8) with
  | Some b => Z.testbit (byte_to_Z b) (7 - k `mod` 8)
  | None => false
  end.

(** Frame bit [k] in Intel numbering: bit 0 is the low bit of byte 0. *)
Definition frame_bit_le (data8 : list Byte.byte) (k : Z) : bool :=
  match data8 !! Z.to_nat (k `div` 8) with
  | Some b => Z.testbit (byte_to_Z b) (k `mod` 8)
  | None => false
  end.

(** Two's-complement reading of a [bit_len]-wide pattern. *)
Definition twos_complement (raw bit_len : Z) : Z :=
  if Z.testbit raw (bit_len - 1) then raw - 2 ^ bit_len else raw.

(** A frame used to exercise the codec: AB 34 56 78 9A BC DE F0. *)
Definition sample_frame : list Byte.byte :=
  [Byte.xab; Byte.x34; Byte.x56; Byte.x78;
   Byte.x9a; Byte.xbc; Byte.xde; Byte.xf0].

End Codec.

(** ** Python strings, number parsing and floats *)

Module PyStr.

(** The code point of a character. *)
Definition code (c : ascii) : Z := Z.of_N (N_of_ascii c).

Definition between (lo hi n : Z) : bool := (lo <=? n) && (n <=? hi).

(** [c.isspace()], which is also the class [\s] of [re] on [str] patterns. *)
Definition isspace (c : ascii) : bool :=
  let n := code c in
  between 9 13 n || between 28 32 n || (n =? 133) || (n =? 160).

(** The whitespace [bytes.fromhex] skips (ASCII only). *)
Definition is_ascii_space (c : ascii) : bool :=
  let n := code c in between 9 13 n || (n =? 32).

Definition is_digit (c : ascii) : bool := between 48 57 (code c).

(** [c.isalpha()] *)
Definition isalpha (c : ascii) : bool :=
  let n := code c in
  between 65 90 n || between 97 122 n || (n =? 170) || (n =? 181)
  || (n =? 186) || between 192 214 n || between 216 246 n || between 248 255 n.

(** Value of a hexadecimal digit. *)
Definition hex_val (c : ascii) : option Z :=
  let n := code c in
  if between 48 57 n then Some (n - 48)
  else if between 65 70 n then Some (n - 55)
  else if between 97 102 n then Some (n - 87)
  else None.

Definition is_hex_digit (c : ascii) : bool :=
  match hex_val c with Some _ => true | None => false end.

(** [c.lower()] *)
Definition lower_char (c : ascii) : ascii :=
  let n := code c in
  if between 65 90 n || between 192 214 n || between 216 222 n
  then ascii_of_N (Z.to_N (n + 32)) else c.

(** [s.lower()] *)
Fixpoint lower (s : string) : string :=
  match s with
  | EmptyString => EmptyString
  | String c r => String (lower_char c) (lower r)
  end.

(** [s.lstrip()], [s.rstrip()], [s.strip()] *)
Fixpoint lstrip (s : string) : string :=
  match s with
  | EmptyString => EmptyString
  | String c r => if isspace c then lstrip r else s
  end.

Definition rstrip (s : string) : string := String.rev (lstrip (String.rev s)).

Definition strip (s : string) : string := rstrip (lstrip s).

(** [s.startswith(p)] *)
Fixpoint startswith (p s : string) : bool :=
  match p, s with
  | EmptyString, _ => true
  | String a p', String b s' => Ascii.eqb a b && startswith p' s'
  | String _ _, EmptyString => false
  end.

(** [c in s] for a single character [c]. *)
Fixpoint contains_char (c : ascii) (s : string) : bool :=
  match s with
  | EmptyString => false
  | String a r => Ascii.eqb a c || contains_char c r
  end.

(** [s.split(sep)] for a single-character separator: never empty. *)
Fixpoint split_on (sep : ascii) (s : string) : list string :=
  match s with
  | EmptyString => [EmptyString]
  | String c r =>
      if Ascii.eqb c sep then EmptyString :: split_on sep r
      else match split_on sep r with
           | p :: ps => String c p :: ps
           | [] => [String c EmptyString]
           end
  end.

(** [s.split()]: runs of whitespace separate, empty pieces are dropped. *)
Fixpoint split_ws_aux (s : string) (cur : string) : list string :=
  let flush := if String.eqb cur EmptyString then [] else [String.rev cur] in
  match s with
  | EmptyString => flush
  | String c r =>
      if isspace c then flush ++ split_ws_aux r EmptyString
      else split_ws_aux r (String c cur)
  end.

Definition split_ws (s : string) : list string := split_ws_aux s EmptyString.

(** [x in (t1, t2, ...)] on strings. *)
Definition str_in (x : string) (ts : list string) : bool :=
  existsb (String.eqb x) ts.

(** Digits of [int(s, 16)]: hexadecimal digits, single underscores only
    between two digits. *)
Fixpoint hex_digits (s : string) (acc : Z) (prev_digit : bool) : option Z :=
  match s with
  | EmptyString => if prev_digit then Some acc else None
  | String c r =>
      if Ascii.eqb c "_" then
        if prev_digit then hex_digits r acc false else None
      else match hex_val c with
           | Some d => hex_digits r (16 * acc + d) true
           | None => None
           end
  end.

(** [int(s, 16)]: surrounding whitespace, an optional sign, an optional
    [0x]/[0X] prefix (which one underscore may follow), then the digits. *)
Definition int_base16 (s : string) : result Z :=
  let t := strip s in
  let '(neg, t1) :=
    match t with
    | String "-" r => (true, r)
    | String "+" r => (false, r)
    | _ => (false, t)
    end in
  let t2 :=
    match t1 with
    | String "0" (String x r) =>
        if Ascii.eqb x "x" || Ascii.eqb x "X" then
          match r with String "_" r' => r' | _ => r end
        else t1
    | _ => t1
    end in
  match hex_digits t2 0 false with
  | Some v => Ok (if neg then - v else v)
  | None => Raise ValueError
  end.

(** [bytes(ints)]: every element must be in [range(256)]. *)
Definition byte_of_int (v : Z) : result Byte.byte :=
  if (0 <=? v) && (v <? 256) then
    match Byte.of_N (Z.to_N v) with
    | Some b => Ok b
    | None => Raise ValueError
    end
  else Raise ValueError.

(** [bytes.fromhex(s)]: pairs of hexadecimal digits, ASCII whitespace
    allowed between pairs. *)
Fixpoint bytes_fromhex (s : string) : result (list Byte.byte) :=
  match s with
  | EmptyString => Ok []
  | String c r =>
      if is_ascii_space c then bytes_fromhex r
      else match hex_val c, r with
           | Some hi, String d r' =>
               match hex_val d with
               | Some lo =>
                   b ← byte_of_int (16 * hi + lo);
                   bs ← bytes_fromhex r';
                   Ok (b :: bs)
               | None => Raise ValueError
               end
           | _, _ => Raise ValueError
           end
  end.

(** Upper-case hexadecimal digits of a non-negative integer. *)
Definition hex_char_upper (d : Z) : ascii :=
  ascii_of_N (Z.to_N (if d <? 10 then d + 48 else d + 55)).

Fixpoint hex_upper_pos (fuel : nat) (n : Z) (acc : string) : string :=
  match fuel with
  | O => acc
  | S fuel' =>
      let acc' := String (hex_char_upper (n `mod` 16)) acc in
      if n `div` 16 =? 0 then acc' else hex_upper_pos fuel' (n `div` 16) acc'
  end.

(** [format(n, "X")] *)
Definition format_X (n : Z) : string :=
  if n <? 0 then
    String "-" (hex_upper_pos (S (Z.to_nat (Z.log2 (- n)))) (- n) EmptyString)
  else hex_upper_pos (S (Z.to_nat (Z.log2 n))) n EmptyString.

(** *** Floats: IEEE-754 binary64 *)

Definition float : Set := spec_float.

Definition fmul : float -> float -> float := SFmul 53 1024.
Definition fadd : float -> float -> float := SFadd 53 1024.

(** Conversion of an [int] operand to [float] (round to nearest, ties to
    even); a magnitude beyond the largest float is an [OverflowError]. *)
Definition float_of_int (z : Z) : result float :=
  match binary_normalize 53 1024 z 0 false with
  | S754_infinity _ => Raise OverflowError
  | f => Ok f
  end.

(** [int(f)]: truncation toward zero. *)
Definition int_of_float (f : float) : result Z :=
  match f with
  | S754_zero _ => Ok 0
  | S754_infinity _ => Raise OverflowError
  | S754_nan => Raise ValueError
  | S754_finite s m e =>
      let a := if 0 <=? e then Z.pos m * 2 ^ e else Z.pos m `div` 2 ^ (- e) in
      Ok (if s then - a else a)
  end.

(** A [digitpart] of the float grammar: digits, single underscores only
    between two digits.  Returns the value read, the number of digits and
    the unread rest. *)
Fixpoint scan_digits (s : string) (acc : Z) (n : nat) : Z * nat * string :=
  match s with
  | EmptyString => (acc, n, s)
  | String c r =>
      if is_digit c then scan_digits r (10 * acc + (code c - 48)) (S n)
      else if Ascii.eqb c "_" && negb (Nat.eqb n 0)
              && match r with String d _ => is_digit d | _ => false end
      then scan_digits r acc n
      else (acc, n, s)
  end.

(** The correctly rounded float nearest to [m * 10^e]. *)
Definition float_of_decimal (neg : bool) (m e : Z) : float :=
  match m with
  | Z.pos p =>
      if 0 <=? e then binary_normalize 53 1024 (if neg then - (m * 10 ^ e) else m * 10 ^ e) 0 false
      else SFdiv 53 1024 (S754_finite neg p 0)
                         (S754_finite false (Z.to_pos (10 ^ (- e))) 0)
  | _ => S754_zero neg
  end.

(** [float(s)] on text. *)
Definition float_of_text (s : string) : result float :=
  let t := strip s in
  let '(neg, t1) :=
    match t with
    | String "-" r => (true, r)
    | String "+" r => (false, r)
    | _ => (false, t)
    end in
  if str_in (lower t1) ["inf"; "infinity"] then Ok (S754_infinity neg)
  else if String.eqb (lower t1) "nan" then Ok S754_nan
  else
    let '(ip, ni, r1) := scan_digits t1 0 0 in
    let '(fp, nf, r2) :=
      match r1 with
      | String "." r => scan_digits r 0 0
      | _ => (0, O, r1)
      end in
    if Nat.eqb (ni + nf) 0 then Raise ValueError
    else
      let mant := ip * 10 ^ Z.of_nat nf + fp in
      match r2 with
      | EmptyString => Ok (float_of_decimal neg mant (- Z.of_nat nf))
      | String c r =>
          if Ascii.eqb c "e" || Ascii.eqb c "E" then
            let '(eneg, r3) :=
              match r with
              | String "-" r' => (true, r')
              | String "+" r' => (false, r')
              | _ => (false, r)
              end in
            match scan_digits r3 0 0 with
            | (ev, S _, EmptyString) =>
                Ok (float_of_decimal neg mant
                      ((if eneg then - ev else ev) - Z.of_nat nf))
            | _ => Raise ValueError
            end
          else Raise ValueError
      end.

(** A value handed to [float()] or tested for truth: [None], text or an
    [int] default. *)
Definition truthy (v : option string) : bool :=
  match v with
  | Some s => negb (String.eqb s EmptyString)
  | None => false
  end.

(** [v or ""] *)
Definition or_empty (v : option string) : string :=
  match v with Some s => s | None => EmptyString end.

(** [v.strip()] where [v] may be [None]. *)
Definition strip_method (v : option string) : result string :=
  match v with
  | Some s => Ok (strip s)
  | None => Raise AttributeError
  end.

(** [v.lower()] where [v] may be [None]. *)
Definition lower_method (v : option string) : result string :=
  match v with
  | Some s => Ok (lower s)
  | None => Raise AttributeError
  end.

(** [float(v or d)] for an [int] default [d]. *)
Definition float_or (v : option string) (d : Z) : result float :=
  match v with
  | Some s => if String.eqb s EmptyString then float_of_int d else float_of_text s
  | None => float_of_int d
  end.

(** [int(float(v or d))] *)
Definition int_float_or (v : option string) (d : Z) : result Z :=
  f ← float_or v d; int_of_float f.

(** A row of [csv.DictReader]: a field that the line is too short to fill
    is present with value [None]. *)
Definition dict_row : Type := gmap string (option string).

(** [row.get(k)] *)
Definition row_get (row : dict_row) (k : string) : option string :=
  match row !! k with Some v => v | None => None end.

(** [row.get(k, d)] *)
Definition row_get_default (row : dict_row) (k d : string) : option string :=
  match row !! k with Some v => v | None => Some d end.

(** [row[k]] *)
Definition row_getitem (row : dict_row) (k : string) : result (option string) :=
  match row !! k with Some v => Ok v | None => Raise KeyError end.

End PyStr.
Import PyStr.

(** ** Regular expressions: the backtracking semantics of [re] *)

Module Regex.

(** The fragment of the [re] syntax the patterns of the source use.
    Repetition is greedy and only applied to character classes.  The anchor
    that opens both patterns has no constructor: [match] and [fullmatch]
    only ever try the start of the subject. *)
Inductive re : Type :=
  | Chr (c : ascii)                  (* a literal character *)
  | Star (p : ascii -> bool)         (* [p]*  *)
  | Plus (p : ascii -> bool)         (* [p]+  *)
  | Seq (r1 r2 : re)
  | Opt (r : re)                     (* (?: r )?  *)
  | Group (name : string) (r : re)   (* (?P<name> r )  *)
  | Eos.                             (* $, without re.MULTILINE *)

(** The groups that took part in a match, most recent first. *)
Definition captures : Type := list (string * string).

(** The text between two positions of the subject: what was consumed when
    [s] was the rest before and [s'] is the rest after. *)
Definition consumed (s s' : string) : string :=
  substring 0 (String.length s - String.length s') s.

(** [p]* followed by [k]: the longest run first, then shorter ones. *)
Fixpoint star {A} (p : ascii -> bool) (s : string) (k : string -> option A)
  : option A :=
  match s with
  | String c r =>
      if p c then
        match star p r k with
        | Some x => Some x
        | None => k s
        end
      else k s
  | EmptyString => k s
  end.

(** Match [r] at the head of [s], then continue with [k]; alternatives are
    tried in the order a backtracking matcher tries them. *)
Fixpoint run {A} (r : re) (s : string) (caps : captures)
    (k : string -> captures -> option A) : option A :=
  match r with
  | Chr c =>
      match s with
      | String a s' => if Ascii.eqb a c then k s' caps else None
      | EmptyString => None
      end
  | Star p => star p s (fun s' => k s' caps)
  | Plus p =>
      match s with
      | String a s' => if p a then star p s' (fun s'' => k s'' caps) else None
      | EmptyString => None
      end
  | Seq r1 r2 => run r1 s caps (fun s' caps' => run r2 s' caps' k)
  | Opt r1 =>
      match run r1 s caps k with
      | Some x => Some x
      | None => k s caps
      end
  | Group name r1 =>
      run r1 s caps (fun s' caps' => k s' ((name, consumed s s') :: caps'))
  | Eos =>
      match s with
      | EmptyString => k s caps
      | String c EmptyString => if code c =? 10 then k s caps else None
      | _ => None
      end
  end.

(** [pattern.match(s)]: anchored at the start of [s]. *)
Definition re_match (r : re) (s : string) : option captures :=
  run r s [] (fun _ caps => Some caps).

(** [re.fullmatch(pattern, s)] *)
Definition re_fullmatch (r : re) (s : string) : option captures :=
  run r s [] (fun s' caps =>
    if String.eqb s' EmptyString then Some caps else None).

(** [m.group(name)]: [None] for a group that took no part in the match. *)
Fixpoint group (m : captures) (name : string) : option string :=
  match m with
  | [] => None
  | (n, v) :: m' => if String.eqb n name then Some v else group m' name
  end.

Fixpoint seq_all (rs : list re) : re :=
  match rs with
  | [] => Star (fun _ => false)
  | [r] => r
  | r :: rs' => Seq r (seq_all rs')
  end.

(** Character classes *)
Definition cls_space : ascii -> bool := isspace.                 (* \s *)
Definition cls_digit : ascii -> bool := is_digit.                (* [0-9] *)
Definition cls_hex : ascii -> bool := is_hex_digit.              (* [0-9A-Fa-f] *)
Definition cls_not_comma (c : ascii) : bool := negb (Ascii.eqb c ","). (* [^,] *)
Definition cls_dot (c : ascii) : bool := negb (code c =? 10).    (* . *)
Definition cls_word (c : ascii) : bool :=                        (* [A-Za-z0-9_] *)
  let n := code c in
  between 65 90 n || between 97 122 n || between 48 57 n || (n =? 95).

End Regex.
Import Regex.

(** ** decode_log_from_csv.py *)

Module DecodeLog.

Record SignalDef : Type := {
  name : string;
  can_id : Z;
  units : string;
  start_bit : Z;
  bit_length : Z;
  offset : float;
  scale : float;
  signed : bool;
  big_endian : bool;
  dlc : Z
}.

(** [CAN_DUMP_RE], written with re.VERBOSE in the source: optional
    whitespace; optionally a parenthesised timestamp (digits, a dot, digits)
    and whitespace; optionally an interface word and whitespace; the
    hexadecimal id; a hash sign; the hexadecimal data, possibly empty;
    optional whitespace; end of line. *)
Definition CAN_DUMP_RE : re :=
  seq_all [
    Star cls_space;
    Opt (seq_all [Chr "(";
                  Group "ts" (seq_all [Plus cls_digit; Chr "."; Plus cls_digit]);
                  Chr ")"; Plus cls_space]);
    Opt (seq_all [Group "iface" (Plus cls_word); Plus cls_space]);
    Group "id" (Plus cls_hex);
    Chr "#";
    Group "data" (Star cls_hex);
    Star cls_space;
    Eos ].

(** [CSV_RE]: optional whitespace; [ts], one or more characters other than
    a comma; a comma between optional whitespace; [id], likewise; a comma
    between optional whitespace; [rest], one or more characters other than
    a newline; optional whitespace; end of line. *)
Definition CSV_RE : re :=
  seq_all [
    Star cls_space;
    Group "ts" (Plus cls_not_comma);
    Star cls_space; Chr ","; Star cls_space;
    Group "id" (Plus cls_not_comma);
    Star cls_space; Chr ","; Star cls_space;
    Group "rest" (Plus cls_dot);
    Star cls_space;
    Eos ].

(** [any(c.isalpha() for c in s)] *)
Fixpoint any_isalpha (s : string) : bool :=
  match s with
  | EmptyString => false
  | String c r => isalpha c || any_isalpha r
  end.

(** [parse_can_id(s)] *)
Definition parse_can_id (s : string) : result Z :=
  let s := strip s in
  if startswith "0x" (lower s) then int_base16 s
  else if bool_decide (is_Some (re_fullmatch (Plus cls_hex) s)) && any_isalpha s
  then int_base16 s
  else f ← float_of_text s; int_of_float f.

(** [parse_bytes_from_hex_data(hexdata)] *)
Definition parse_bytes_from_hex_data (hexdata : string) : result (list Byte.byte) :=
  let hexdata := strip hexdata in
  if String.eqb hexdata "" then Ok []
  else
    let hexdata :=
      if negb (Z.of_nat (String.length hexdata) `mod` 2 =? 0)
      then hexdata +:+ "0" else hexdata in
    bytes_fromhex hexdata.

(** [parse_bytes_from_csv_parts(rest)] *)
Definition parse_bytes_from_csv_parts (rest : string) : result (list Byte.byte) :=
  let parts := strip <$> split_on "," rest in
  let parts :=
    match parts with
    | [p0] => if contains_char " " p0 then strip <$> split_ws p0 else parts
    | _ => parts
    end in
  if (length parts <? 8)%nat then Raise ValueError
  else mapM (fun p => v ← int_base16 p; byte_of_int v) (take 8 parts).

(** The expression that fills [signed]:
    [row.get("signedness", "").strip().lower() in (...)]. *)
Definition classify_signed (v : option string) : result bool :=
  t ← strip_method v;
  Ok (str_in (lower t) ["signed"; "s"; "1"; "true"; "yes"]).

(** The expression that fills [big_endian]:
    [row.get("endian", "").strip().lower() in (...)]. *)
Definition classify_big_endian (v : option string) : result bool :=
  t ← strip_method v;
  Ok (str_in (lower t) ["motorola"; "big"; "be"; "msb"; "0"; "true"; "yes"]).

(** The body of the [for row in r] loop of [load_signals]: [None] when the
    row is skipped. *)
Definition load_signal_row (row : dict_row) : result (option SignalDef) :=
  if negb (truthy (row_get row "name")) || negb (truthy (row_get row "can_id"))
  then Ok None
  else
    cid_text ← row_getitem row "can_id";
    cid ← match cid_text with
          | Some s => parse_can_id s
          | None => Raise AttributeError
          end;
    nm ← strip_method (row_get_default row "name" "");
    un ← strip_method (row_get_default row "units" "");
    sb ← int_float_or (row_get_default row "start_bit" "0") 0;
    bl ← int_float_or (row_get_default row "bit_length" "1") 1;
    off ← float_or (row_get_default row "offset" "0") 0;
    sc ← float_or (row_get_default row "scale" "1") 1;
    sg ← classify_signed (row_get_default row "signedness" "");
    en ← classify_big_endian (row_get_default row "endian" "");
    dl ← int_float_or (row_get_default row "dlc" "8") 8;
    Ok (Some {|
      name := nm; can_id := cid; units := un;
      start_bit := sb; bit_length := bl; offset := off; scale := sc;
      signed := sg; big_endian := en; dlc := dl |}).

(** [by_id.setdefault(can_id, []).append(sd)] *)
Definition append_signal (by_id : gmap Z (list SignalDef)) (sd : SignalDef)
  : gmap Z (list SignalDef) :=
  <[can_id sd := default [] (by_id !! can_id sd) ++ [sd]]> by_id.

(** [load_signals], on the rows the reader yields. *)
Fixpoint load_signals_from (rows : list dict_row) (by_id : gmap Z (list SignalDef))
  : result (gmap Z (list SignalDef)) :=
  match rows with
  | [] => Ok by_id
  | row :: rows' =>
      r ← load_signal_row row;
      match r with
      | None => load_signals_from rows' by_id
      | Some sd => load_signals_from rows' (append_signal by_id sd)
      end
  end.

Definition load_signals (rows : list dict_row) : result (gmap Z (list SignalDef)) :=
  load_signals_from rows ∅.

(** [parse_frame_line(line)] *)
Definition parse_frame_line (line : string)
  : result (option (option string * Z * list Byte.byte)) :=
  let line := strip line in
  if String.eqb line "" || startswith "#" line then Ok None
  else
    match re_match CSV_RE line with
    | Some m =>
        ts ← strip_method (group m "ts");
        cid ← match group m "id" with
              | Some s => parse_can_id s
              | None => Raise AttributeError
              end;
        data ← match group m "rest" with
               | Some s => parse_bytes_from_csv_parts s
               | None => Raise AttributeError
               end;
        Ok (Some (Some ts, cid, data))
    | None =>
        match re_match CAN_DUMP_RE line with
        | Some m =>
            let ts := group m "ts" in
            let data_hex := default "" (group m "data") in
            cid ← match group m "id" with
                  | Some cid_hex => int_base16 cid_hex
                  | None => Raise TypeError
                  end;
            data ← parse_bytes_from_hex_data data_hex;
            Ok (Some (ts, cid, data))
        | None => Ok None
        end
    end.

(** The normalisation to 8 bytes in [main]. *)
Definition normalize8 (data : list Byte.byte) : list Byte.byte :=
  if (length data <? 8)%nat
  then data ++ replicate (8 - length data) Byte.x00
  else take 8 data.

(** One row of the output table:
    timestamp, can_id, signal, value, units, raw. *)
Record OutRow : Type := {
  out_timestamp : string;
  out_can_id : string;
  out_signal : string;
  out_value : float;
  out_units : string;
  out_raw : Z
}.

(** The counters of [main] and the rows written so far. *)
Record RunState : Type := {
  total_frames : Z;
  decoded_rows : Z;
  skipped_frames : Z;
  written : list OutRow
}.

Definition initial_state : RunState :=
  {| total_frames := 0; decoded_rows := 0; skipped_frames := 0; written := [] |}.

(** The body of [for sd in sigs]. *)
Definition decode_signal (ts : option string) (cid : Z) (data8 : list Byte.byte)
    (sd : SignalDef) : result OutRow :=
  raw ← (if big_endian sd
         then Codec.get_big_endian data8 (start_bit sd) (bit_length sd)
         else Codec.get_little_endian data8 (start_bit sd) (bit_length sd));
  raw ← (if signed sd then Codec.to_signed raw (bit_length sd) else Ok raw);
  fraw ← float_of_int raw;
  let value := fadd (fmul fraw (scale sd)) (offset sd) in
  Ok {| out_timestamp := default "" ts;
        out_can_id := "0x" +:+ format_X cid;
        out_signal := name sd;
        out_value := value;
        out_units := units sd;
        out_raw := raw |}.

Fixpoint decode_signals (ts : option string) (cid : Z) (data8 : list Byte.byte)
    (sigs : list SignalDef) (st : RunState) : result RunState :=
  match sigs with
  | [] => Ok st
  | sd :: sigs' =>
      row ← decode_signal ts cid data8 sd;
      decode_signals ts cid data8 sigs'
        {| total_frames := total_frames st;
           decoded_rows := decoded_rows st + 1;
           skipped_frames := skipped_frames st;
           written := written st ++ [row] |}
  end.

(** The body of [for line in f_in]. *)
Definition process_line (signals_by_id : gmap Z (list SignalDef))
    (st : RunState) (line : string) : result RunState :=
  parsed ← parse_frame_line line;
  match parsed with
  | None => Ok st
  | Some (ts, cid, data) =>
      let st1 := {| total_frames := total_frames st + 1;
                    decoded_rows := decoded_rows st;
                    skipped_frames := skipped_frames st;
                    written := written st |} in
      let data8 := normalize8 data in
      match signals_by_id !! cid with
      | None | Some [] =>
          Ok {| total_frames := total_frames st1;
                decoded_rows := decoded_rows st1;
                skipped_frames := skipped_frames st1 + 1;
                written := written st1 |}
      | Some sigs => decode_signals ts cid data8 sigs st1
      end
  end.

(** The [for line in f_in] loop of [main]; an exception ends the run. *)
Fixpoint main_loop (signals_by_id : gmap Z (list SignalDef))
    (lines : list string) (st : RunState) : result RunState :=
  match lines with
  | [] => Ok st
  | line :: lines' =>
      st' ← process_line signals_by_id st line;
      main_loop signals_by_id lines' st'
  end.

End DecodeLog.

(** ** decode_frame_from_csv.py *)

Module DecodeFrame.

(** [parse_can_id(s)] *)
Definition parse_can_id (s : string) : result Z :=
  let s := strip s in
  if startswith "0x" (lower s) then int_base16 s
  else f ← float_of_text s; int_of_float f.

(** [s.replace(",", " ")] *)
Fixpoint replace_commas (s : string) : string :=
  match s with
  | EmptyString => EmptyString
  | String c r => String (if Ascii.eqb c "," then " "%char else c) (replace_commas r)
  end.

(** [parse_bytes(hex_str)] *)
Definition parse_bytes (hex_str : string) : result (list Byte.byte) :=
  let parts := split_ws (replace_commas hex_str) in
  if negb (length parts =? 8)%nat then Raise ValueError
  else mapM (fun p => v ← int_base16 p; byte_of_int v) parts.

(** [sub in s] on strings. *)
Fixpoint contains_sub (sub s : string) : bool :=
  startswith sub s ||
  match s with
  | EmptyString => false
  | String _ r => contains_sub sub r
  end.

(** The loop that collects the rows of the requested id. *)
Fixpoint select_rows (can_id : Z) (table : list dict_row) : result (list dict_row) :=
  match table with
  | [] => Ok []
  | row :: table' =>
      if negb (truthy (row_get row "can_id")) then select_rows can_id table'
      else
        cid_text ← row_getitem row "can_id";
        cid ← match cid_text with
              | Some s => parse_can_id s
              | None => Raise AttributeError
              end;
        rows ← select_rows can_id table';
        Ok (if cid =? can_id then row :: rows else rows)
  end.

(** [float(row[k])] *)
Definition float_field (row : dict_row) (k : string) : result float :=
  v ← row_getitem row k;
  match v with
  | Some s => float_of_text s
  | None => Raise TypeError
  end.

(** What one printed line reports: name, value, units, raw. *)
Record Printed : Type := {
  p_name : option string;
  p_value : float;
  p_units : option string;
  p_raw : Z
}.

(** The body of [for row in rows]. *)
Definition decode_row (data : list Byte.byte) (row : dict_row) : result Printed :=
  nm ← row_getitem row "name";
  un ← row_getitem row "units";
  start_bit ← (f ← float_field row "start_bit"; int_of_float f);
  bit_len ← (f ← float_field row "bit_length"; int_of_float f);
  offset ← float_field row "offset";
  scale ← float_field row "scale";
  signedness ← (v ← row_getitem row "signedness"; lower_method v);
  endian ← (v ← row_getitem row "endian"; lower_method v);
  raw ← (if contains_sub "motorola" endian || contains_sub "big" endian
         then Codec.get_big_endian data start_bit bit_len
         else Codec.get_little_endian data start_bit bit_len);
  raw ← (if contains_sub "signed" signedness
         then Codec.to_signed raw bit_len else Ok raw);
  fraw ← float_of_int raw;
  Ok {| p_name := nm; p_value := fadd (fmul fraw scale) offset;
        p_units := un; p_raw := raw |}.

(** [main], from the parsed arguments on: the lines printed per signal. *)
Definition main (table : list dict_row) (can_id_arg bytes_arg : string)
  : result (list Printed) :=
  can_id ← parse_can_id can_id_arg;
  data ← parse_bytes bytes_arg;
  rows ← select_rows can_id table;
  mapM (decode_row data) rows.

End DecodeFrame.

(** ** csv_to_dbc.py *)

Module CsvToDbc.

Definition DEFAULT_DLC : Z := 8.

(** [sanitize_name(s)] *)
Fixpoint replace_non_word (s : string) : string :=
  match s with
  | EmptyString => EmptyString
  | String c r =>
      String (if cls_word c then c else "_"%char) (replace_non_word r)
  end.

Definition sanitize_name (s : string) : string :=
  let s := replace_non_word (strip s) in
  let s := if String.eqb s "" then "SIG" else s in
  match s with
  | String c _ => if is_digit c then "_" +:+ s else s
  | EmptyString => s
  end.

(** [parse_can_id(s)] *)
Definition parse_can_id (s : string) : result Z :=
  let s := strip s in
  if startswith "0x" (lower s) then int_base16 s
  else f ← float_of_text s; int_of_float f.

(** [parse_int(s, default)] *)
Definition parse_int (s : option string) (default : Z) : result Z :=
  let s := strip (or_empty s) in
  if String.eqb s "" then Ok default
  else f ← float_of_text s; int_of_float f.

(** [parse_float(s, default)] *)
Definition parse_float (s : option string) (default : float) : result float :=
  let s := strip (or_empty s) in
  if String.eqb s "" then Ok default else float_of_text s.

(** [is_signed(s)] *)
Definition is_signed (s : option string) : bool :=
  let t := lower (strip (or_empty s)) in
  str_in t ["signed"; "s"; "1"; "true"; "yes"].

(** [is_big_endian(s)] *)
Definition is_big_endian (s : option string) : bool :=
  let t := lower (strip (or_empty s)) in
  str_in t ["motorola"; "big"; "be"; "msb"; "1"; "true"; "yes"].

(** A line of the document.  [BO] and [SG] lines are kept structured. *)
Inductive dbc_line : Type :=
  | Text (s : string)
  | BO (can_id : Z) (dlc : Z)
  | SG (name : string) (start_bit bit_len : Z) (endian_num : Z)
       (sign_char : ascii) (scale offset vmin vmax : float) (units : string).

(** The rows kept by the reading loop. *)
Definition named_rows (table : list dict_row) : list dict_row :=
  filter (fun row => truthy (row_get row "name") = true) table.

(** [by_id[can_id].append(row)] on a [defaultdict(list)] *)
Definition append_row (by_id : gmap Z (list dict_row)) (can_id : Z) (row : dict_row)
  : gmap Z (list dict_row) :=
  <[can_id := default [] (by_id !! can_id) ++ [row]]> by_id.

(** [parse_can_id(row["can_id"])] *)
Definition row_can_id (row : dict_row) : result Z :=
  cid_text ← row_getitem row "can_id";
  match cid_text with
  | Some s => parse_can_id s
  | None => Raise AttributeError
  end.

(** The grouping loop. *)
Fixpoint group_by_id (rows : list dict_row) (by_id : gmap Z (list dict_row))
  : result (gmap Z (list dict_row)) :=
  match rows with
  | [] => Ok by_id
  | row :: rows' =>
      can_id ← row_can_id row;
      group_by_id rows' (append_row by_id can_id row)
  end.

(** The loop [for s in sigs: dlc = parse_int(s.get("dlc", ""), dlc)]. *)
Fixpoint message_dlc (sigs : list dict_row) (dlc : Z) : result Z :=
  match sigs with
  | [] => Ok dlc
  | s :: sigs' =>
      dlc' ← parse_int (row_get_default s "dlc" "") dlc;
      message_dlc sigs' dlc'
  end.

(** The [SG_] line of one signal. *)
Definition signal_line (s : dict_row) : result dbc_line :=
  nm ← row_getitem s "name";
  nm ← match nm with Some t => Ok (sanitize_name t) | None => Raise AttributeError end;
  start_bit ← parse_int (row_get_default s "start_bit" "") 0;
  bit_len ← parse_int (row_get_default s "bit_length" "") 1;
  offset ← parse_float (row_get_default s "offset" "") (S754_zero false);
  scale ← parse_float (row_get_default s "scale" "") (SFone 53 1024);
  vmin ← parse_float (row_get_default s "min" "") (S754_zero false);
  vmax ← parse_float (row_get_default s "max" "") (S754_zero false);
  let units := strip (or_empty (row_get_default s "units" "")) in
  let signed := is_signed (row_get_default s "signedness" "") in
  let big_end := is_big_endian (row_get_default s "endian" "") in
  let endian_num := if big_end then 0 else 1 in
  let sign_char := if signed then "-"%char else "+"%char in
  Ok (SG nm start_bit bit_len endian_num sign_char scale offset vmin vmax units).

(** The lines of one message: the [BO_] line, its signals, a blank line. *)
Definition message_block (can_id : Z) (sigs : list dict_row)
  : result (list dbc_line) :=
  dlc ← message_dlc sigs DEFAULT_DLC;
  sgs ← mapM signal_line sigs;
  Ok (BO can_id dlc :: sgs ++ [Text ""]).

(** [sorted(by_id.keys())] *)
Definition sorted_keys (by_id : gmap Z (list dict_row)) : list Z :=
  merge_sort Z.le (elements (dom by_id)).

Definition dquote : string := String (ascii_of_N 34) EmptyString.
Definition tab : string := String (ascii_of_N 9) EmptyString.

Definition preamble : list dbc_line :=
  Text ("VERSION " +:+ dquote +:+ dquote) :: Text "" :: Text "NS_ :" ::
  ((fun t => Text (tab +:+ t)) <$>
     ["NS_DESC_"; "CM_"; "BA_DEF_"; "BA_"; "VAL_"; "CAT_DEF_"; "CAT_";
      "FILTER"; "BA_DEF_DEF_"; "EV_DATA_"; "ENVVAR_DATA_"; "SGTYPE_";
      "SGTYPE_VAL_"; "BA_DEF_SGTYPE_"; "BA_SGTYPE_"; "SIG_TYPE_REF_";
      "VAL_TABLE_"; "SIG_GROUP_"; "SIG_VALTYPE_"; "SIGTYPE_VALTYPE_";
      "BO_TX_BU_"; "BA_DEF_REL_"; "BA_REL_"; "BA_DEF_DEF_REL_";
      "BU_SG_REL_"; "BU_EV_REL_"; "BU_BO_REL_"; "SG_MUL_VAL_"])
  ++ [Text ""; Text "BS_:"; Text ""; Text "BU_: VOSP"; Text ""].

(** [main], from the rows the reader yields to the list [lines]. *)
Definition main (table : list dict_row) : result (list dbc_line) :=
  let rows := named_rows table in
  by_id ← group_by_id rows ∅;
  blocks ← mapM (fun can_id =>
                   message_block can_id (default [] (by_id !! can_id)))
                (sorted_keys by_id);
  Ok (preamble ++ concat blocks).

(** *** The claim about the DLC, read literally *)

(** The DLC each signal of a message carries once loaded: the parsed field,
    8 when it is blank. *)
Definition signal_dlcs (sigs : list dict_row) : result (list Z) :=
  mapM (fun s => parse_int (row_get_default s "dlc" "") DEFAULT_DLC) sigs.

(** The last value other than the default among [values], the default when
    there is none. *)
Definition last_non_default (values : list Z) : Z :=
  default DEFAULT_DLC (last (filter (fun v => v ≠ DEFAULT_DLC) values)).

(** The texts of the [dlc] fields that are not blank, in row order. *)
Definition explicit_dlc_texts (sigs : list dict_row) : list string :=
  filter (fun t => t ≠ EmptyString)
         ((fun s => strip (or_empty (row_get_default s "dlc" ""))) <$> sigs).

(** [row] is one of the signals of message [can_id]. *)
Definition can_id_is (can_id : Z) (row : dict_row) : bool :=
  match row_can_id row with
  | Ok c => c =? can_id
  | Raise _ => false
  end.

(** The signals of message [can_id], in input row order. *)
Definition signals_of (can_id : Z) (table : list dict_row) : list dict_row :=
  filter (fun row => can_id_is can_id row = true) (named_rows table).

(** [float(t)] then [int(...)] *)
Definition int_of_text (t : string) : result Z :=
  f ← float_of_text t; int_of_float f.

(** Every numeric field [main] parses from [row] parses. *)
Definition row_parses (row : dict_row) : Prop :=
  is_ok (row_can_id row) = true
  /\ is_ok (parse_int (row_get_default row "dlc" "") DEFAULT_DLC) = true
  /\ is_ok (signal_line row) = true.

End CsvToDbc.

(** ** Sample inputs *)

Module Samples.
Import DecodeLog.

(** A table row with the given fields, in the column order of the header:
    name, can_id, units, start_bit, bit_length, offset, scale, max, min,
    signedness, endian, dlc. *)
Definition mk_row (fields : list string) : dict_row :=
  list_to_map (zip ["name"; "can_id"; "units"; "start_bit"; "bit_length";
                    "offset"; "scale"; "max"; "min"; "signedness"; "endian";
                    "dlc"]
                   (Some <$> fields)).

(** The float [0.1]. *)
Definition f_0_1 : float := S754_finite false 7205759403792794 (-56).

(** The definition of the worked example: id 0x4D1, start bit 0, 16 bits,
    Intel byte order, unsigned, scale 0.1, offset 0. *)
Definition example_signal (nm un : string) (dl : Z) : SignalDef :=
  {| name := nm; can_id := 0x4D1; units := un;
     start_bit := 0; bit_length := 16;
     offset := S754_zero false; scale := f_0_1;
     signed := false; big_endian := false; dlc := dl |}.

Definition example_table (nm un : string) (dl : Z) : gmap Z (list SignalDef) :=
  {[ 0x4D1 := [example_signal nm un dl] ]}.

Definition candump_line : string := "(1.000000) can0 4D1#0102030405060708".
Definition csv_line_no_ts : string := "1233,01,02,03,04,05,06,07,08".
Definition csv_line_ts : string := "1.000000,1233,01,02,03,04,05,06,07,08".

(** The frame of the line "4D1#0102" once normalised. *)
Definition short_frame : list Byte.byte := normalize8 [Byte.x01; Byte.x02].

End Samples.

(** ** Predicates used to state properties *)

Module Shape.

(** Every character of [s] satisfies [p]. *)
Fixpoint all_chars (p : ascii -> bool) (s : string) : bool :=
  match s with
  | EmptyString => true
  | String c r => p c && all_chars p r
  end.

(** [s] is not empty and its first character satisfies [p]. *)
Definition first_char_is (p : ascii -> bool) (s : string) : bool :=
  match s with
  | EmptyString => false
  | String c _ => p c
  end.

(** The relation a successful run of the matcher establishes: [r] matches
    the text between the subject rest [s] and the later rest [s'], taking the
    captures from [caps] to [caps']. *)
Inductive matches : re -> string -> captures -> string -> captures -> Prop :=
  | matches_chr c s caps :
      matches (Chr c) (String c s) caps s caps
  | matches_star p pre s caps :
      all_chars p pre = true ->
      matches (Star p) (pre +:+ s) caps s caps
  | matches_plus p c pre s caps :
      p c = true -> all_chars p pre = true ->
      matches (Plus p) (String c (pre +:+ s)) caps s caps
  | matches_seq r1 r2 s caps s1 caps1 s2 caps2 :
      matches r1 s caps s1 caps1 -> matches r2 s1 caps1 s2 caps2 ->
      matches (Seq r1 r2) s caps s2 caps2
  | matches_opt_taken r s caps s' caps' :
      matches r s caps s' caps' -> matches (Opt r) s caps s' caps'
  | matches_opt_skipped r s caps :
      matches (Opt r) s caps s caps
  | matches_group name r s caps s' caps' :
      matches r s caps s' caps' ->
      matches (Group name r) s caps s' ((name, consumed s s') :: caps')
  | matches_eos s caps :
      s = EmptyString \/ (exists c, s = String c EmptyString /\ code c = 10) ->
      matches Eos s caps s caps.

(** The id text is taken for hexadecimal by the log decoder although it has
    no [0x] prefix: hexadecimal digits only, at least one of them a letter. *)
Definition bare_hex_with_letter (s : string) : bool :=
  let t := strip s in
  negb (startswith "0x" (lower t))
  && all_chars is_hex_digit t && negb (String.eqb t EmptyString)
  && DecodeLog.any_isalpha t.

(** A signal whose field lies inside the 8-byte frame. *)
Definition field_in_frame (sd : DecodeLog.SignalDef) : Prop :=
  0 <= DecodeLog.start_bit sd
  /\ 1 <= DecodeLog.bit_length sd
  /\ DecodeLog.start_bit sd + DecodeLog.bit_length sd <= 64.

(** The signal definitions the rows of a table give, in row order, rows
    that are skipped left out. *)
Definition loaded_signals (rows : list dict_row) : result (list DecodeLog.SignalDef) :=
  omap id <$> mapM DecodeLog.load_signal_row rows.

(** The row is one the frame decoder selects for [can_id]. *)
Definition frame_row_selected (can_id : Z) (row : dict_row) : bool :=
  truthy (row_get row "can_id")
  && match row_get row "can_id" with
     | Some s =>
         match DecodeFrame.parse_can_id s with
         | Ok c => c =? can_id
         | Raise _ => false
         end
     | None => false
     end.

(** The id of the row, when it has one, parses. *)
Definition frame_row_id_parses (row : dict_row) : bool :=
  match row_get row "can_id" with
  | Some s => String.eqb s EmptyString || is_ok (DecodeFrame.parse_can_id s)
  | None => true
  end.




(** The signedness and byte-order flags as the frame decoder reads them off
    a row: by substring tests on the lower-cased fields. *)
Definition frame_flags (row : dict_row) : option (bool * bool) :=
  match row_get row "signedness", row_get row "endian" with
  | Some s, Some e =>
      Some (DecodeFrame.contains_sub "signed" (lower s),
            DecodeFrame.contains_sub "motorola" (lower e)
            || DecodeFrame.contains_sub "big" (lower e))
  | _, _ => None
  end.

End Shape.

(* ================================================================== *)
(** * Properties *)
(* ================================================================== *)

(** ** Facts about the Python primitives *)

Section PyFacts.

Lemma byte_to_Z_range b : 0 <= byte_to_Z b < 256.
Proof. unfold byte_to_Z. pose proof (Byte.to_N_bounded b). lia. Qed.

Lemma lshift_nonneg a n : 0 <= n -> lshift a n = Ok (a ≪ n).
Proof. intros Hn. unfold lshift. destruct (Z.ltb_spec n 0); [lia | done]. Qed.

Lemma rshift_nonneg a n : 0 <= n -> rshift a n = Ok (a ≫ n).
Proof. intros Hn. unfold rshift. destruct (Z.ltb_spec n 0); [lia | done]. Qed.

Lemma lshift_neg a n : n < 0 -> lshift a n = Raise ValueError.
Proof. intros Hn. unfold lshift. destruct (Z.ltb_spec n 0); [done | lia]. Qed.

Lemma rshift_neg a n : n < 0 -> rshift a n = Raise ValueError.
Proof. intros Hn. unfold rshift. destruct (Z.ltb_spec n 0); [done | lia]. Qed.

Lemma bytes_getitem_nonneg data k :
  0 <= k ->
  bytes_getitem data k =
    match data !! Z.to_nat k with
    | Some b => Ok (byte_to_Z b)
    | None => Raise IndexError
    end.
Proof.
  intros Hk. unfold bytes_getitem.
  destruct (Z.ltb_spec k 0) as [|_]; [lia|].
  destruct (Z.leb_spec 0 k) as [_|]; [|lia].
  destruct (Z.ltb_spec k (Z.of_nat (length data))) as [|Hge]; simpl; [done|].
  rewrite (lookup_ge_None_2 data (Z.to_nat k)); [done | lia].
Qed.

Lemma bytes_getitem_Ok_lookup data k v :
  0 <= k -> bytes_getitem data k = Ok v ->
  exists b, data !! Z.to_nat k = Some b /\ v = byte_to_Z b.
Proof.
  intros Hk. rewrite bytes_getitem_nonneg by done.
  destruct (data !! Z.to_nat k) as [b|]; [|done].
  intros [= <-]. eauto.
Qed.

Lemma land_1_b2z s : Z.land s 1 = Z.b2z (Z.testbit s 0).
Proof.
  change 1 with (Z.ones 1). rewrite Z.land_ones by lia.
  change (2 ^ 1) with 2. symmetry. apply Z.bit0_mod.
Qed.

Lemma land_1_cases s : Z.land s 1 = 0 \/ Z.land s 1 = 1.
Proof. rewrite land_1_b2z. destruct (Z.testbit s 0); simpl; auto. Qed.

Lemma lor_shiftl1_bit r b : b = 0 \/ b = 1 -> Z.lor (r ≪ 1) b = 2 * r + b.
Proof.
  intros Hb. rewrite Z.shiftl_mul_pow2 by lia. change (2 ^ 1) with 2.
  rewrite <- Z.add_nocarry_lor; [lia|].
  destruct Hb as [-> | ->]; [apply Z.land_0_r|].
  rewrite land_1_b2z. replace (r * 2) with (r * 2 ^ 1) by lia.
  rewrite Z.mul_pow2_bits_low by lia. done.
Qed.

(** [Z.land a (1 ≪ n)] isolates bit [n]. *)
Lemma land_shiftl1 a n :
  0 <= n -> Z.land a (1 ≪ n) = if Z.testbit a n then 2 ^ n else 0.
Proof.
  intros Hn. rewrite Z.shiftl_1_l. apply Z.bits_inj'. intros m Hm.
  rewrite Z.land_spec, Z.pow2_bits_eqb by done.
  destruct (Z.eqb_spec n m) as [<- | Hne].
  - rewrite andb_true_r. destruct (Z.testbit a n) eqn:E.
    + by rewrite Z.pow2_bits_true.
    + by rewrite Z.bits_0.
  - rewrite andb_false_r. destruct (Z.testbit a n).
    + by rewrite Z.pow2_bits_false.
    + by rewrite Z.bits_0.
Qed.

Lemma mapM_result_inv {A B} (f : A -> result B) l ys :
  mapM f l = Ok ys -> Forall2 (fun x y => f x = Ok y) l ys.
Proof.
  revert ys. induction l as [|x l IH]; intros ys; simpl.
  - intros [= <-]. constructor.
  - destruct (f x) as [y|] eqn:Ey; simpl; [|done].
    destruct (mapM f l) as [ys'|] eqn:El; simpl; [|done].
    intros [= <-]. constructor; auto.
Qed.

Lemma mapM_result_Ok {A B} (f : A -> result B) l ys :
  Forall2 (fun x y => f x = Ok y) l ys -> mapM f l = Ok ys.
Proof.
  induction 1 as [|x y l ys Hxy _ IH]; simpl; [done|].
  by rewrite Hxy; simpl; rewrite IH.
Qed.

End PyFacts.

(** ** The bit-field codec *)

Section CodecFacts.
Import Codec.

(** *** Motorola extraction *)

Lemma be_bit_cases data sb i b : be_bit data sb i = Ok b -> b = 0 \/ b = 1.
Proof.
  unfold be_bit. destruct (bytes_getitem _ _); simpl; [|done].
  intros [= <-]. apply land_1_cases.
Qed.

Lemma be_step_eq data sb acc i :
  be_step data sb acc i = (fun bit => 2 * acc + bit) <$> be_bit data sb i.
Proof.
  unfold be_step, be_bit.
  destruct (bytes_getitem _ _) as [b|]; simpl; [|done].
  pose proof (Z.mod_pos_bound (sb + i) 8).
  rewrite rshift_nonneg by lia. simpl.
  by rewrite lor_shiftl1_bit by apply land_1_cases.
Qed.

Lemma be_loop_eq data sb idxs acc :
  be_loop data sb idxs acc =
    (fun bits => acc * 2 ^ Z.of_nat (length bits) + msb_first bits)
      <$> mapM (be_bit data sb) idxs.
Proof.
  revert acc. induction idxs as [|i idxs IH]; intros acc; simpl.
  - f_equal. lia.
  - rewrite be_step_eq. destruct (be_bit data sb i) as [bit|]; simpl; [|done].
    rewrite IH. destruct (mapM _ idxs) as [bits|]; simpl; [|done].
    f_equal. rewrite Nat2Z.inj_succ, Z.pow_succ_r by lia. lia.
Qed.

Lemma get_big_endian_by_words data sb bl :
  get_big_endian data sb bl = be_by_words data sb bl.
Proof.
  unfold get_big_endian, be_by_words. rewrite be_loop_eq.
  by destruct (mapM _ _).
Qed.

Lemma msb_first_range bits :
  Forall (fun b => b = 0 \/ b = 1) bits ->
  0 <= msb_first bits < 2 ^ Z.of_nat (length bits).
Proof.
  induction 1 as [|b bits Hb _ IH]; simpl; [lia|].
  rewrite Nat2Z.inj_succ, Z.pow_succ_r by lia. lia.
Qed.

(** Digit [j] (counted from the least significant end) of [msb_first bits]
    is the list element at distance [j] from the end. *)
Lemma msb_first_testbit bits (i : nat) b :
  Forall (fun b => b = 0 \/ b = 1) bits ->
  bits !! i = Some b ->
  Z.testbit (msb_first bits) (Z.of_nat (length bits) - 1 - Z.of_nat i)
  = (b =? 1).
Proof.
  intros Hall. revert i. induction Hall as [|x bits Hx Hall IH]; intros i; [done|].
  simpl msb_first. simpl length. rewrite Nat2Z.inj_succ.
  pose proof (msb_first_range bits Hall) as Hr.
  destruct i as [|i]; simpl.
  - intros [= ->].
    replace (Z.succ (Z.of_nat (length bits)) - 1 - Z.of_nat 0)
      with (Z.of_nat (length bits)) by lia.
    rewrite Z.testbit_eqb by lia.
    replace ((b * 2 ^ Z.of_nat (length bits) + msb_first bits)
               `div` 2 ^ Z.of_nat (length bits)) with b.
    + destruct Hx as [-> | ->]; reflexivity.
    + rewrite Z.add_comm, Z.div_add by lia. rewrite Z.div_small by lia. lia.
  - intros Hi. pose proof (lookup_lt_Some _ _ _ Hi) as Hlt.
    replace (Z.succ (Z.of_nat (length bits)) - 1 - Z.of_nat (S i))
      with (Z.of_nat (length bits) - 1 - Z.of_nat i) by lia.
    rewrite <- (IH i Hi).
    set (j := Z.of_nat (length bits) - 1 - Z.of_nat i).
    set (n := Z.of_nat (length bits)) in *.
    rewrite <- (Z.mod_pow2_bits_low _ n j) by lia.
    rewrite Z.add_comm, Z.mod_add by lia.
    rewrite Z.mod_pow2_bits_low by lia. done.
Qed.

Lemma be_bit_frame_bit data sb i b :
  0 <= sb + i -> be_bit data sb i = Ok b ->
  b = Z.b2z (frame_bit_be data (sb + i)).
Proof.
  intros Hk. unfold be_bit, frame_bit_be.
  rewrite bytes_getitem_nonneg by (apply Z.div_pos; lia).
  destruct (data !! _) as [x|]; simpl; [|done].
  intros [= <-]. pose proof (Z.mod_pos_bound (sb + i) 8).
  rewrite land_1_b2z, Z.shiftr_spec by lia. done.
Qed.

Lemma be_bits_in_range data sb bl :
  length data = 8%nat -> 0 <= sb -> sb + bl <= 64 ->
  exists bits, mapM (be_bit data sb) (range bl) = Ok bits.
Proof.
  intros Hlen Hsb Hle. unfold range.
  assert (Hall : Forall (fun i => exists b, be_bit data sb i = Ok b) (seqZ 0 bl)).
  { apply Forall_seqZ. intros i Hi. unfold be_bit.
    rewrite bytes_getitem_nonneg by (apply Z.div_pos; lia).
    destruct (lookup_lt_is_Some_2 data (Z.to_nat ((sb + i) `div` 8))) as [x ->].
    - rewrite Hlen. apply Nat2Z.inj_lt. rewrite Z2Nat.id by (apply Z.div_pos; lia).
      apply Z.div_lt_upper_bound; lia.
    - simpl. eauto. }
  induction Hall as [|i l [b Hb] _ [bits IH]]; simpl; [by eexists|].
  rewrite Hb. simpl. rewrite IH. simpl. by eexists.
Qed.

Lemma be_bits_length data sb bl bits :
  mapM (be_bit data sb) (range bl) = Ok bits ->
  length bits = Z.to_nat bl /\ Forall (fun b => b = 0 \/ b = 1) bits.
Proof.
  intros H. apply mapM_result_inv in H. split.
  - rewrite <- (Forall2_length _ _ _ H). unfold range. by rewrite length_seqZ.
  - clear -H. induction H; constructor; eauto using be_bit_cases.
Qed.

(** Whenever a value is returned for a non-negative start bit, its digit
    of weight [bl - 1 - i] is frame bit [sb + i]. *)
Lemma get_big_endian_bits data sb bl v :
  get_big_endian data sb bl = Ok v -> 0 <= sb ->
  forall i, 0 <= i < bl ->
    0 <= v < 2 ^ bl
    /\ Z.testbit v (bl - 1 - i) = frame_bit_be data (sb + i).
Proof.
  intros Hv Hsb i Hi. rewrite get_big_endian_by_words in Hv.
  unfold be_by_words in Hv.
  destruct (mapM _ _) as [bits|] eqn:Hbits; simpl in Hv; [|done].
  injection Hv as <-.
  destruct (be_bits_length _ _ _ _ Hbits) as [Hl H01].
  pose proof (msb_first_range bits H01) as Hr.
  rewrite Hl, Z2Nat.id in Hr by lia. split; [done|].
  apply mapM_result_inv in Hbits.
  assert (Hri : range bl !! Z.to_nat i = Some i).
  { unfold range. rewrite lookup_seqZ_lt by lia. f_equal. lia. }
  destruct (Forall2_lookup_l _ _ _ _ _ Hbits Hri) as (b & Hb & Hbit).
  pose proof (msb_first_testbit bits _ _ H01 Hb) as Ht.
  rewrite Hl, !Z2Nat.id in Ht by lia. rewrite Ht.
  rewrite (be_bit_frame_bit data sb i b) by (done || lia).
  by destruct (frame_bit_be _ _).
Qed.

Lemma get_big_endian_total data sb bl :
  length data = 8%nat -> 0 <= sb -> 0 <= bl -> sb + bl <= 64 ->
  exists v, get_big_endian data sb bl = Ok v /\ 0 <= v < 2 ^ bl.
Proof.
  intros Hlen Hsb Hbl Hle.
  destruct (be_bits_in_range data sb bl) as [bits Hbits]; try done.
  exists (msb_first bits). rewrite get_big_endian_by_words.
  unfold be_by_words. rewrite Hbits. split; [done|].
  destruct (be_bits_length _ _ _ _ Hbits) as [Hl H01].
  pose proof (msb_first_range bits H01) as Hr.
  by rewrite Hl, Z2Nat.id in Hr by lia.
Qed.

(** C1.  For every 8-byte frame, start bit and bit length, Motorola
    extraction runs exactly the iteration of the specification: bit [i] of
    the field is read at absolute index [start_bit + i], from byte
    [bit_index div 8] at position [7 - bit_index mod 8], and the bits are
    accumulated so that the first one read is the most significant digit of
    the output (where a byte subscript is out of range both sides raise
    [IndexError]).  Whenever a value [v] is returned for a non-negative start
    bit, it lies in [[0, 2^bit_length)] and its binary digit of weight
    [bit_length - 1 - i] is frame bit [start_bit + i].  In particular a frame
    whose first byte is 0xAB decodes to 0xAB for [start_bit = 0],
    [bit_length = 8]. *)
Theorem get_big_endian_msb_first (data : list Byte.byte) (start_bit bit_length : Z) :
  length data = 8%nat ->
  get_big_endian data start_bit bit_length = be_by_words data start_bit bit_length
  /\ (forall v, get_big_endian data start_bit bit_length = Ok v ->
      0 <= start_bit ->
      forall i, 0 <= i < bit_length ->
        0 <= v < 2 ^ bit_length
        /\ Z.testbit v (bit_length - 1 - i) = frame_bit_be data (start_bit + i))
  /\ (data !! 0%nat = Some Byte.xab -> get_big_endian data 0 8 = Ok 0xAB).
Proof.
  intros Hlen. split; [apply get_big_endian_by_words|]. split.
  - intros v Hv Hsb i Hi. by apply get_big_endian_bits.
  - intros H0.
    do 9 (destruct data as [|? data]; try discriminate Hlen).
    injection H0 as ->. reflexivity.
Qed.

Lemma get_big_endian_msb_first_witness :
  get_big_endian sample_frame 4 12 = be_by_words sample_frame 4 12
  /\ (0 <= 0xB34 < 2 ^ 12
      /\ Z.testbit 0xB34 (12 - 1 - 0) = frame_bit_be sample_frame (4 + 0))
  /\ get_big_endian sample_frame 0 8 = Ok 0xAB.
Proof.
  pose proof (get_big_endian_msb_first sample_frame 4 12 eq_refl) as (H1 & H2 & _).
  pose proof (get_big_endian_msb_first sample_frame 0 8 eq_refl) as (_ & _ & H3).
  split; [exact H1|]. split.
  - apply (H2 0xB34); [reflexivity | lia | lia].
  - apply H3. reflexivity.
Defined.

(** C10.  When [start_bit >= 0], [bit_length >= 0] and
    [start_bit + bit_length <= 64], every subscript with which Motorola
    extraction reads an 8-byte frame lies in 0..7 and succeeds, so the
    [IndexError] branch is not taken: a value is returned, and it lies in
    [[0, 2^bit_length)]. *)
Theorem get_big_endian_in_bounds (data : list Byte.byte) (start_bit bit_length : Z) :
  length data = 8%nat ->
  0 <= start_bit -> 0 <= bit_length -> start_bit + bit_length <= 64 ->
  Forall (fun k => 0 <= k < 8 /\ is_ok (bytes_getitem data k) = true)
         (be_subscripts start_bit bit_length)
  /\ exists v, get_big_endian data start_bit bit_length = Ok v
               /\ 0 <= v < 2 ^ bit_length.
Proof.
  intros Hlen Hsb Hbl Hle. split.
  - unfold be_subscripts, range. apply Forall_fmap, Forall_seqZ.
    intros i Hi. simpl.
    assert (0 <= (start_bit + i) `div` 8 < 8) as Hk.
    { split; [apply Z.div_pos; lia | apply Z.div_lt_upper_bound; lia]. }
    split; [done|]. rewrite bytes_getitem_nonneg by lia.
    destruct (lookup_lt_is_Some_2 data (Z.to_nat ((start_bit + i) `div` 8)))
      as [x ->]; [lia | done].
  - by apply get_big_endian_total.
Qed.

Lemma get_big_endian_in_bounds_witness :
  Forall (fun k => 0 <= k < 8 /\ is_ok (bytes_getitem sample_frame k) = true)
         (be_subscripts 52 12)
  /\ exists v, get_big_endian sample_frame 52 12 = Ok v /\ 0 <= v < 2 ^ 12.
Proof.
  apply (get_big_endian_in_bounds sample_frame 52 12); [reflexivity | lia..].
Defined.

(** *** Intel extraction *)

Lemma int_from_bytes_little_u64 data :
  length data = 8%nat -> int_from_bytes_little data = u64_le data.
Proof.
  intros Hlen. do 9 (destruct data as [|? data]; try discriminate Hlen).
  simpl. lia.
Qed.

Lemma int_from_bytes_little_range data :
  0 <= int_from_bytes_little data < 2 ^ (8 * Z.of_nat (length data)).
Proof.
  induction data as [|b data IH]; simpl int_from_bytes_little; simpl length.
  - simpl. lia.
  - pose proof (byte_to_Z_range b).
    replace (8 * Z.of_nat (S (length data)))
      with (8 + 8 * Z.of_nat (length data)) by lia.
    rewrite Z.pow_add_r by lia. change (2 ^ 8) with 256. lia.
Qed.

(** Bit [k] of the little-endian integer is frame bit [k], Intel numbering. *)
Lemma int_from_bytes_little_testbit data k :
  0 <= k -> Z.testbit (int_from_bytes_little data) k = frame_bit_le data k.
Proof.
  revert k. induction data as [|b data IH]; intros k Hk.
  - unfold frame_bit_le. simpl. apply Z.bits_0.
  - simpl int_from_bytes_little. pose proof (byte_to_Z_range b) as Hb.
    replace (256 * int_from_bytes_little data)
      with (int_from_bytes_little data * 2 ^ 8) by lia.
    unfold frame_bit_le. destruct (Z.lt_ge_cases k 8) as [Hlt | Hge].
    + rewrite Z.div_small, Z.mod_small by lia. simpl.
      rewrite <- (Z.mod_pow2_bits_low _ 8 k) by lia.
      rewrite Z.mod_add by lia.
      rewrite Z.mod_small by (change (2 ^ 8) with 256; lia). done.
    + replace k with ((k - 8) + 8) at 1 by lia.
      rewrite <- Z.div_pow2_bits by lia.
      rewrite Z.div_add by lia.
      rewrite Z.div_small by (change (2 ^ 8) with 256; lia).
      rewrite Z.add_0_l, IH by lia. unfold frame_bit_le.
      assert (Hd : k `div` 8 = (k - 8) `div` 8 + 1).
      { rewrite <- Z.div_add by lia. f_equal. lia. }
      assert (Hm : k `mod` 8 = (k - 8) `mod` 8).
      { rewrite <- (Z.mod_add (k - 8) 1 8) by lia. f_equal. lia. }
      rewrite Hd, Hm.
      replace (Z.to_nat ((k - 8) `div` 8 + 1))
        with (S (Z.to_nat ((k - 8) `div` 8))); [done|].
      pose proof (Z.div_pos (k - 8) 8). lia.
Qed.

Lemma get_little_endian_by_words data sb bl :
  length data = 8%nat ->
  get_little_endian data sb bl = le_by_words data sb bl.
Proof.
  intros Hlen. unfold get_little_endian, le_by_words.
  rewrite int_from_bytes_little_u64 by done. unfold lshift, rshift.
  destruct (Z.ltb_spec bl 0), (Z.ltb_spec sb 0); simpl; done.
Qed.

(** C2.  For every 8-byte frame and every [(start_bit, bit_length)] with
    [start_bit + bit_length <= 64], Intel extraction is the frame read as
    one little-endian unsigned 64-bit integer, shifted right by [start_bit]
    and masked to its low [bit_length] bits; the shifts being Python's, a
    negative count raises [ValueError] on both sides. *)
Theorem get_little_endian_shift_mask (data : list Byte.byte) (start_bit bit_length : Z) :
  length data = 8%nat ->
  start_bit + bit_length <= 64 ->
  get_little_endian data start_bit bit_length
    = le_by_words data start_bit bit_length
  /\ 0 <= u64_le data < 2 ^ 64
  /\ (0 <= start_bit -> 0 <= bit_length ->
      get_little_endian data start_bit bit_length
      = Ok (Z.land (u64_le data ≫ start_bit) (1 ≪ bit_length - 1))).
Proof.
  intros Hlen _. split; [by apply get_little_endian_by_words|]. split.
  - rewrite <- int_from_bytes_little_u64 by done.
    pose proof (int_from_bytes_little_range data) as Hr.
    by rewrite Hlen in Hr.
  - intros Hsb Hbl. rewrite get_little_endian_by_words by done.
    unfold le_by_words.
    destruct (Z.ltb_spec start_bit 0), (Z.ltb_spec bit_length 0); simpl; done || lia.
Qed.

Lemma get_little_endian_shift_mask_witness :
  get_little_endian sample_frame 12 20 = le_by_words sample_frame 12 20
  /\ 0 <= u64_le sample_frame < 2 ^ 64
  /\ get_little_endian sample_frame 12 20
     = Ok (Z.land (u64_le sample_frame ≫ 12) (1 ≪ 20 - 1)).
Proof.
  pose proof (get_little_endian_shift_mask sample_frame 12 20 eq_refl
                ltac:(lia)) as (H1 & H2 & H3).
  split; [exact H1|]. split; [exact H2|]. apply H3; lia.
Defined.

(** Digit [j] of the extracted field is frame bit [start_bit + j]. *)
Lemma get_little_endian_bits data sb bl :
  0 <= sb -> 0 <= bl ->
  exists v, get_little_endian data sb bl = Ok v
    /\ 0 <= v < 2 ^ bl
    /\ forall j, 0 <= j ->
         Z.testbit v j = (j <? bl) && frame_bit_le data (sb + j).
Proof.
  intros Hsb Hbl. unfold get_little_endian.
  rewrite lshift_nonneg, rshift_nonneg by done. simpl.
  eexists. split; [done|].
  rewrite Z.shiftl_1_l, Z.sub_1_r, <- Z.ones_equiv, Z.land_ones by done.
  split; [apply Z.mod_pos_bound; lia|].
  intros j Hj. rewrite Z.testbit_mod_pow2 by done.
  rewrite Z.shiftr_spec by done.
  rewrite int_from_bytes_little_testbit by lia.
  by rewrite (Z.add_comm j sb).
Qed.

(** *** Sign extension *)

Lemma twos_complement_range raw bl :
  1 <= bl -> 0 <= raw < 2 ^ bl ->
  - 2 ^ (bl - 1) <= twos_complement raw bl < 2 ^ (bl - 1)
  /\ twos_complement raw bl `mod` 2 ^ bl = raw.
Proof.
  intros Hbl Hraw. unfold twos_complement.
  assert (Hp : 2 ^ bl = 2 * 2 ^ (bl - 1)).
  { replace bl with (Z.succ (bl - 1)) at 1 by lia. apply Z.pow_succ_r. lia. }
  rewrite Z.testbit_eqb by lia.
  assert (Hq : 0 <= raw `div` 2 ^ (bl - 1) < 2).
  { split; [apply Z.div_pos; lia | apply Z.div_lt_upper_bound; lia]. }
  pose proof (Z.div_mod raw (2 ^ (bl - 1)) ltac:(lia)) as Hdm.
  pose proof (Z.mod_pos_bound raw (2 ^ (bl - 1)) ltac:(lia)) as Hm.
  destruct (Z.eqb_spec ((raw `div` 2 ^ (bl - 1)) `mod` 2) 1) as [E | E].
  - assert (raw `div` 2 ^ (bl - 1) = 1) as Hd.
    { rewrite Z.mod_small in E by lia. done. }
    split; [nia|].
    replace (raw - 2 ^ bl) with (raw + (-1) * 2 ^ bl) by lia.
    rewrite Z.mod_add by lia. apply Z.mod_small. lia.
  - assert (raw `div` 2 ^ (bl - 1) = 0) as Hd.
    { rewrite Z.mod_small in E by lia. lia. }
    split; [nia|]. apply Z.mod_small. lia.
Qed.

(** C3.  For [bit_length >= 1] and [raw] in [[0, 2^bit_length)],
    [to_signed] is the [bit_length]-wide two's-complement reading: when bit
    [bit_length - 1] of [raw] is set the result is [raw - 2^bit_length],
    otherwise [raw]; the result lies in [[-2^(bit_length-1),
    2^(bit_length-1))] and is congruent to [raw] modulo [2^bit_length].  For
    [bit_length = 8]: 0xFF gives -1, 0x80 gives -128, 0x7F gives 127. *)
Theorem to_signed_twos_complement (raw bit_length : Z) :
  1 <= bit_length -> 0 <= raw < 2 ^ bit_length ->
  to_signed raw bit_length
    = Ok (if negb (Z.land raw (1 ≪ (bit_length - 1)) =? 0)
          then raw - 1 ≪ bit_length else raw)
  /\ to_signed raw bit_length = Ok (twos_complement raw bit_length)
  /\ - 2 ^ (bit_length - 1) <= twos_complement raw bit_length < 2 ^ (bit_length - 1)
  /\ twos_complement raw bit_length `mod` 2 ^ bit_length = raw
  /\ to_signed 0xFF 8 = Ok (-1)
  /\ to_signed 0x80 8 = Ok (-128)
  /\ to_signed 0x7F 8 = Ok 127.
Proof.
  intros Hbl Hraw.
  assert (Hcode : to_signed raw bit_length
    = Ok (if negb (Z.land raw (1 ≪ (bit_length - 1)) =? 0)
          then raw - 1 ≪ bit_length else raw)).
  { unfold to_signed. rewrite !lshift_nonneg by lia. simpl.
    by destruct (negb _). }
  split; [exact Hcode|]. split.
  - rewrite Hcode. f_equal. unfold twos_complement.
    rewrite land_shiftl1 by lia. rewrite Z.shiftl_1_l.
    destruct (Z.testbit raw (bit_length - 1)); [|reflexivity].
    destruct (Z.eqb_spec (2 ^ (bit_length - 1)) 0) as [E|]; [|reflexivity].
    pose proof (Z.pow_pos_nonneg 2 (bit_length - 1)). lia.
  - pose proof (twos_complement_range raw bit_length Hbl Hraw) as [? ?].
    split; [done|]. split; [done|]. repeat split; reflexivity.
Qed.

Lemma to_signed_twos_complement_witness :
  to_signed 0xFF 8 = Ok (-1) /\ to_signed 200 8 = Ok (twos_complement 200 8).
Proof.
  pose proof (to_signed_twos_complement 200 8 ltac:(lia) ltac:(lia))
    as (_ & H2 & _ & _ & H5 & _).
  split; [exact H5 | exact H2].
Defined.

End CodecFacts.

(** ** The log decoder *)

Section DecodeLogFacts.
Import Codec DecodeLog Samples.

(** *** Both frame encodings of the worked example *)

(** C4, as stated, fails: the comma-delimited line without a timestamp is
    read as timestamp 1233, id 01 and seven byte tokens, so parsing raises
    [ValueError] and no row is produced, while the candump line yields one
    row. *)
Lemma csv_line_without_timestamp_raises :
  parse_frame_line csv_line_no_ts = Raise ValueError
  /\ process_line (example_table "S" "u" 8) initial_state csv_line_no_ts
     = Raise ValueError
  /\ written <$> process_line (example_table "S" "u" 8) initial_state candump_line
     = Ok [ {| out_timestamp := "1.000000"; out_can_id := "0x4D1";
               out_signal := "S";
               out_value := S754_finite false 7219833152628327 (-47);
               out_units := "u"; out_raw := 513 |} ].
Proof. repeat split; vm_compute; reflexivity. Qed.

(** C4, amended.  With the timestamp field in front, the comma-delimited
    line "1.000000,1233,01,02,03,04,05,06,07,08" and the candump line
    "(1.000000) can0 4D1#0102030405060708" are processed to the same state:
    one frame, one decoded row, with timestamp "1.000000", id "0x4D1",
    raw 0x0201 = 513 and value [513 * 0.1 + 0] computed in binary64 (the
    float printed 51.300000000000004). *)
Theorem csv_and_candump_lines_agree (nm un : string) (dl : Z) :
  process_line (example_table nm un dl) initial_state csv_line_ts
  = process_line (example_table nm un dl) initial_state candump_line
  /\ process_line (example_table nm un dl) initial_state candump_line
     = Ok {| total_frames := 1; decoded_rows := 1; skipped_frames := 0;
             written :=
               [ {| out_timestamp := "1.000000"; out_can_id := "0x4D1";
                    out_signal := nm;
                    out_value := S754_finite false 7219833152628327 (-47);
                    out_units := un; out_raw := 0x0201 |} ] |}
  /\ float_of_int 513 ≫= (fun r => Ok (fadd (fmul r f_0_1) (S754_zero false)))
     = Ok (S754_finite false 7219833152628327 (-47))
  /\ parse_can_id "1233" = Ok 0x4D1.
Proof. repeat split; vm_compute; reflexivity. Qed.

(** *** Lines that are not frames *)

(** C5, as stated, fails: a comma-delimited line with too few byte tokens,
    or with a token that is not hexadecimal, raises [ValueError] out of the
    loop, so the lines after it are never read; and a line matching neither
    pattern changes no counter at all. *)
Lemma malformed_csv_line_aborts_run :
  main_loop (example_table "S" "u" 8) ["1.0,4D1,01,02"; candump_line] initial_state
  = Raise ValueError
  /\ main_loop (example_table "S" "u" 8)
       ["1.0,4D1,zz,02,03,04,05,06,07,08"; candump_line] initial_state
     = Raise ValueError
  /\ main_loop (example_table "S" "u" 8) ["hello world"] initial_state
     = Ok initial_state.
Proof. repeat split; vm_compute; reflexivity. Qed.

(** C5, amended.  A line that matches neither [CSV_RE] nor [CAN_DUMP_RE]
    is not fatal: [parse_frame_line] returns [None], the line is dropped
    with every counter and the output left as they were, and the loop goes
    on with the remaining lines. *)
Theorem unmatched_line_is_skipped
    (signals_by_id : gmap Z (list SignalDef)) (st : RunState)
    (line : string) (rest : list string) :
  re_match CSV_RE (strip line) = None ->
  re_match CAN_DUMP_RE (strip line) = None ->
  parse_frame_line line = Ok None
  /\ process_line signals_by_id st line = Ok st
  /\ main_loop signals_by_id (line :: rest) st = main_loop signals_by_id rest st.
Proof.
  intros Hcsv Hdump.
  assert (Hp : parse_frame_line line = Ok None).
  { unfold parse_frame_line. rewrite Hcsv, Hdump. by destruct (_ || _). }
  assert (Hl : process_line signals_by_id st line = Ok st).
  { unfold process_line. by rewrite Hp. }
  split; [done|]. split; [done|]. simpl. by rewrite Hl.
Qed.

Lemma unmatched_line_is_skipped_witness :
  parse_frame_line "hello world" = Ok None
  /\ process_line (example_table "S" "u" 8) initial_state "hello world"
     = Ok initial_state
  /\ main_loop (example_table "S" "u" 8) ["hello world"; candump_line] initial_state
     = main_loop (example_table "S" "u" 8) [candump_line] initial_state.
Proof.
  apply (unmatched_line_is_skipped (example_table "S" "u" 8) initial_state
           "hello world" [candump_line]); reflexivity.
Defined.

(** *** Normalisation to eight bytes *)

Lemma normalize8_length data : length (normalize8 data) = 8%nat.
Proof.
  unfold normalize8. destruct (Nat.ltb_spec (length data) 8).
  - rewrite length_app, length_replicate. lia.
  - rewrite length_take. lia.
Qed.

Lemma short_frame_bit_le k : 16 <= k -> frame_bit_le short_frame k = false.
Proof.
  intros Hk. unfold frame_bit_le.
  assert (2 <= k `div` 8) by (apply Z.div_le_lower_bound; lia).
  destruct (Z.to_nat (k `div` 8)) as [|[|n]] eqn:E; [lia | lia |].
  do 6 (destruct n as [|n]; [apply Z.bits_0|]). done.
Qed.

Lemma short_frame_bit_be k : 16 <= k -> frame_bit_be short_frame k = false.
Proof.
  intros Hk. unfold frame_bit_be.
  assert (2 <= k `div` 8) by (apply Z.div_le_lower_bound; lia).
  destruct (Z.to_nat (k `div` 8)) as [|[|n]] eqn:E; [lia | lia |].
  do 6 (destruct n as [|n]; [apply Z.bits_0|]). done.
Qed.

Lemma zero_of_low_bits v n :
  0 <= n -> 0 <= v < 2 ^ n -> (forall j, 0 <= j < n -> Z.testbit v j = false) ->
  v = 0.
Proof.
  intros Hn Hv Hbits. apply Z.bits_inj'. intros j Hj. rewrite Z.bits_0.
  destruct (Z.lt_ge_cases j n) as [Hlt | Hge]; [apply Hbits; lia|].
  rewrite <- (Z.mod_small v (2 ^ n)) by done.
  apply Z.mod_pow2_bits_high. lia.
Qed.

Lemma short_frame_little_endian sb bl :
  16 <= sb -> 0 <= bl -> get_little_endian short_frame sb bl = Ok 0.
Proof.
  intros Hsb Hbl.
  destruct (get_little_endian_bits short_frame sb bl) as (v & -> & Hv & Hbits);
    [lia | lia |].
  f_equal. apply (zero_of_low_bits v bl); [done | done |].
  intros j Hj. rewrite Hbits by lia.
  rewrite short_frame_bit_le by lia. apply andb_false_r.
Qed.

Lemma short_frame_big_endian sb bl :
  16 <= sb -> 0 <= bl -> sb + bl <= 64 -> get_big_endian short_frame sb bl = Ok 0.
Proof.
  intros Hsb Hbl Hle.
  destruct (get_big_endian_total short_frame sb bl) as (v & Hv & Hr);
    [reflexivity | lia | lia | lia |].
  rewrite Hv. f_equal. apply (zero_of_low_bits v bl); [done | done |].
  intros j Hj.
  destruct (get_big_endian_bits short_frame sb bl v Hv ltac:(lia)
              (bl - 1 - j) ltac:(lia)) as [_ Hb].
  replace (bl - 1 - (bl - 1 - j)) with j in Hb by lia.
  rewrite Hb. apply short_frame_bit_be. lia.
Qed.

(** C9.  The bytes of every parsed frame are brought to exactly eight
    before decoding: a shorter sequence is padded on the right with zero
    bytes, a longer one is cut to its first eight; and hexadecimal data of
    odd length gets one zero nibble appended before it is paired into
    bytes.  So the line "4D1#0102" is decoded on the frame 01 02 00 00 00 00
    00 00, and every field of it that starts at bit 16 or later and ends
    within the frame decodes to raw 0, whatever its byte order and
    signedness. *)
Theorem frame_normalized_to_8_bytes
    (data : list Byte.byte) (hexdata : string) (sd : SignalDef) (ts : option string)
    (signals_by_id : gmap Z (list SignalDef)) (st : RunState) (line : string)
    (cid : Z) (sigs : list SignalDef) :
  length (normalize8 data) = 8%nat
  /\ ((length data <= 8)%nat ->
      normalize8 data = data ++ replicate (8 - length data) Byte.x00)
  /\ ((8 <= length data)%nat -> normalize8 data = take 8 data)
  /\ (parse_frame_line line = Ok (Some (ts, cid, data)) ->
      signals_by_id !! cid = Some (sd :: sigs) ->
      process_line signals_by_id st line
      = decode_signals ts cid (normalize8 data) (sd :: sigs)
          {| total_frames := total_frames st + 1;
             decoded_rows := decoded_rows st;
             skipped_frames := skipped_frames st;
             written := written st |})
  /\ (Z.of_nat (String.length (strip hexdata)) `mod` 2 = 1 ->
      parse_bytes_from_hex_data hexdata = bytes_fromhex (strip hexdata +:+ "0"))
  /\ parse_frame_line "4D1#010" = Ok (Some (None, 0x4D1, [Byte.x01; Byte.x00]))
  /\ parse_frame_line "4D1#0102" = Ok (Some (None, 0x4D1, [Byte.x01; Byte.x02]))
  /\ normalize8 [Byte.x01; Byte.x02]
     = [Byte.x01; Byte.x02; Byte.x00; Byte.x00;
        Byte.x00; Byte.x00; Byte.x00; Byte.x00]
  /\ (16 <= start_bit sd -> 1 <= bit_length sd ->
      start_bit sd + bit_length sd <= 64 ->
      exists row,
        decode_signal ts cid (normalize8 [Byte.x01; Byte.x02]) sd = Ok row
        /\ out_raw row = 0).
Proof.
  split; [apply normalize8_length|]. split.
  { intros Hle. unfold normalize8.
    destruct (Nat.ltb_spec (length data) 8) as [|Hge]; [done|].
    assert (length data = 8%nat) as Hl by lia.
    rewrite Hl, take_ge by lia. simpl. by rewrite app_nil_r. }
  split.
  { intros Hge. unfold normalize8.
    destruct (Nat.ltb_spec (length data) 8); [lia | done]. }
  split.
  { intros Hp Hs. unfold process_line. rewrite Hp. simpl. by rewrite Hs. }
  split.
  { intros Hodd. unfold parse_bytes_from_hex_data.
    destruct (String.eqb_spec (strip hexdata) "") as [E|_].
    - rewrite E in Hodd. done.
    - rewrite Hodd. done. }
  split; [reflexivity|]. split; [reflexivity|]. split; [reflexivity|].
  intros Hsb Hbl Hle. fold short_frame. unfold decode_signal.
  assert (Hraw : (if big_endian sd
                  then get_big_endian short_frame (start_bit sd) (bit_length sd)
                  else get_little_endian short_frame (start_bit sd) (bit_length sd))
                 = Ok 0).
  { destruct (big_endian sd).
    - apply short_frame_big_endian; lia.
    - apply short_frame_little_endian; lia. }
  rewrite Hraw. simpl.
  assert (Hsg : (if signed sd then to_signed 0 (bit_length sd) else Ok 0) = Ok 0).
  { destruct (signed sd); [|done].
    unfold to_signed. by rewrite (lshift_nonneg 1 (bit_length sd - 1)) by lia. }
  rewrite Hsg. simpl. eexists. split; [reflexivity | reflexivity].
Qed.

Lemma frame_normalized_to_8_bytes_witness :
  normalize8 [Byte.x01; Byte.x02; Byte.x03]
  = [Byte.x01; Byte.x02; Byte.x03] ++ replicate (8 - 3) Byte.x00
  /\ parse_bytes_from_hex_data "010" = bytes_fromhex "0100"
  /\ process_line (example_table "S" "u" 8) initial_state "4D1#0102"
     = decode_signals None 0x4D1 (normalize8 [Byte.x01; Byte.x02])
         [example_signal "S" "u" 8]
         {| total_frames := 1; decoded_rows := 0; skipped_frames := 0;
            written := [] |}
  /\ exists row,
       decode_signal None 0x4D1 (normalize8 [Byte.x01; Byte.x02])
         {| name := "T"; can_id := 0x4D1; units := "";
            start_bit := 24; bit_length := 12;
            offset := S754_zero false; scale := f_0_1;
            signed := true; big_endian := true; dlc := 8 |} = Ok row
       /\ out_raw row = 0.
Proof.
  pose proof (frame_normalized_to_8_bytes
    [Byte.x01; Byte.x02; Byte.x03] "010"
    {| name := "T"; can_id := 0x4D1; units := "";
       start_bit := 24; bit_length := 12;
       offset := S754_zero false; scale := f_0_1;
       signed := true; big_endian := true; dlc := 8 |}
    None (example_table "S" "u" 8) initial_state "4D1#0102" 0x4D1 [])
    as (_ & Hpad & _ & _ & Hodd & _ & _ & _ & Hzero).
  pose proof (frame_normalized_to_8_bytes
    [Byte.x01; Byte.x02] "010" (example_signal "S" "u" 8)
    None (example_table "S" "u" 8) initial_state "4D1#0102" 0x4D1 [])
    as (_ & _ & _ & Hproc & _).
  split; [apply Hpad; simpl; lia|].
  split; [apply Hodd; reflexivity|].
  split; [apply Hproc; reflexivity|].
  apply Hzero; simpl; lia.
Defined.

End DecodeLogFacts.

(** ** The signal table and its consumers *)

Section TableFacts.
Import Samples.

(** *** Byte-order tokens *)

(** C6.  The two sites read the [endian] text differently.  With [t] the
    trimmed, lower-cased token: signal loading of the log decoder takes it
    for big-endian exactly when [t] is one of motorola, big, be, msb, 0,
    true, yes; the classifier of the DBC serializer exactly when [t] is one
    of motorola, big, be, msb, 1, true, yes.  So "0" is big-endian for the
    first and little-endian for the second, a token in neither list is
    little-endian for both, and the two sites disagree exactly on "0" and
    "1". *)
Theorem endian_token_classification (s : string) :
  DecodeLog.classify_big_endian (Some s)
    = Ok (str_in (lower (strip s))
            ["motorola"; "big"; "be"; "msb"; "0"; "true"; "yes"])
  /\ CsvToDbc.is_big_endian (Some s)
     = str_in (lower (strip s))
         ["motorola"; "big"; "be"; "msb"; "1"; "true"; "yes"]
  /\ DecodeLog.classify_big_endian (Some "0") = Ok true
  /\ CsvToDbc.is_big_endian (Some "0") = false
  /\ (str_in (lower (strip s))
        ["motorola"; "big"; "be"; "msb"; "0"; "true"; "yes"] = false ->
      str_in (lower (strip s))
        ["motorola"; "big"; "be"; "msb"; "1"; "true"; "yes"] = false ->
      DecodeLog.classify_big_endian (Some s) = Ok false
      /\ CsvToDbc.is_big_endian (Some s) = false)
  /\ (DecodeLog.classify_big_endian (Some s) <> Ok (CsvToDbc.is_big_endian (Some s))
      <-> lower (strip s) = "0" \/ lower (strip s) = "1").
Proof.
  split; [reflexivity|]. split; [reflexivity|].
  split; [reflexivity|]. split; [reflexivity|]. split.
  - intros H1 H2. split.
    + change (DecodeLog.classify_big_endian (Some s))
        with (Ok (str_in (lower (strip s))
                ["motorola"; "big"; "be"; "msb"; "0"; "true"; "yes"])).
      by rewrite H1.
    + exact H2.
  - unfold DecodeLog.classify_big_endian, CsvToDbc.is_big_endian.
    simpl strip_method. simpl or_empty. cbn [mbind result_bind].
    generalize (lower (strip s)). intros t. unfold str_in. simpl.
    destruct (String.eqb_spec t "motorola") as [->|]; [split; [done | intros [|]; done]|].
    destruct (String.eqb_spec t "big") as [->|]; [split; [done | intros [|]; done]|].
    destruct (String.eqb_spec t "be") as [->|]; [split; [done | intros [|]; done]|].
    destruct (String.eqb_spec t "msb") as [->|]; [split; [done | intros [|]; done]|].
    destruct (String.eqb_spec t "0") as [->|]; [split; [auto | done]|].
    destruct (String.eqb_spec t "1") as [->|]; [split; [auto | done]|].
    destruct (String.eqb_spec t "true") as [->|]; [split; [done | intros [|]; done]|].
    destruct (String.eqb_spec t "yes") as [->|]; [split; [done | intros [|]; done]|].
    simpl. split; [done | intros [|]; done].
Qed.

Lemma endian_token_classification_witness :
  DecodeLog.classify_big_endian (Some " Intel ") = Ok false
  /\ CsvToDbc.is_big_endian (Some " Intel ") = false.
Proof.
  pose proof (endian_token_classification " Intel ") as (_ & _ & _ & _ & H & _).
  apply H; reflexivity.
Defined.

(** *** Rows without a name or an id *)

(** The log decoder skips a row whose [name] or [can_id] is missing. *)
Lemma load_signal_row_skips row :
  truthy (row_get row "name") = false \/ truthy (row_get row "can_id") = false ->
  DecodeLog.load_signal_row row = Ok None.
Proof.
  intros H. unfold DecodeLog.load_signal_row.
  by destruct H as [-> | ->]; [|rewrite orb_true_r].
Qed.

Lemma load_signals_from_skips row rows by_id :
  truthy (row_get row "name") = false \/ truthy (row_get row "can_id") = false ->
  DecodeLog.load_signals_from (row :: rows) by_id
  = DecodeLog.load_signals_from rows by_id.
Proof. intros H. simpl. by rewrite load_signal_row_skips. Qed.

(** The DBC serializer skips a row whose [name] is missing. *)
Lemma dbc_main_skips_unnamed row table :
  truthy (row_get row "name") = false ->
  CsvToDbc.main (row :: table) = CsvToDbc.main table.
Proof.
  intros H. unfold CsvToDbc.main, CsvToDbc.named_rows.
  rewrite filter_cons_False; [done|]. by rewrite H.
Qed.

(** The frame decoder skips a row whose [can_id] is missing. *)
Lemma select_rows_skips_no_id can_id row table :
  truthy (row_get row "can_id") = false ->
  DecodeFrame.select_rows can_id (row :: table)
  = DecodeFrame.select_rows can_id table.
Proof. intros H. simpl. by rewrite H. Qed.

(** C8 fails in two of the three consumers.  A row with a name and a blank
    [can_id] is skipped by the log decoder, but the DBC serializer, which
    only tests the name, goes on to parse the blank id and raises
    [ValueError].  A row with an id and a blank [name] is skipped by the log
    decoder and by the DBC serializer, but the frame decoder, which only
    tests the id, decodes and prints it. *)
Theorem rows_missing_name_or_id :
  DecodeLog.load_signals
    [mk_row ["Speed"; ""; "km/h"; "0"; "16"; "0"; "0.1"; ""; ""; "unsigned"; "intel"; "8"];
     mk_row [""; "0x4D1"; ""; "0"; "8"; "0"; "1"; ""; ""; ""; ""; "8"]]
  = Ok ∅
  /\ CsvToDbc.main
       [mk_row ["Speed"; ""; "km/h"; "0"; "16"; "0"; "0.1"; ""; ""; "unsigned"; "intel"; "8"]]
     = Raise ValueError
  /\ CsvToDbc.main
       [mk_row [""; "0x4D1"; ""; "0"; "8"; "0"; "1"; ""; ""; ""; ""; "8"]]
     = Ok CsvToDbc.preamble
  /\ DecodeFrame.main
       [mk_row ["Speed"; ""; "km/h"; "0"; "16"; "0"; "0.1"; ""; ""; "unsigned"; "intel"; "8"]]
       "0x4D1" "01 02 03 04 05 06 07 08"
     = Ok []
  /\ DecodeFrame.main
       [mk_row [""; "0x4D1"; ""; "0"; "8"; "0"; "1"; ""; ""; ""; ""; "8"]]
       "0x4D1" "01 02 03 04 05 06 07 08"
     = Ok [ {| DecodeFrame.p_name := Some "";
               DecodeFrame.p_value := S754_finite false 4503599627370496 (-52);
               DecodeFrame.p_units := Some "";
               DecodeFrame.p_raw := 1 |} ].
Proof. repeat split; vm_compute; reflexivity. Qed.

End TableFacts.

(** ** The DBC serializer *)

Section DbcFacts.
Import CsvToDbc Samples.

Lemma mapM_result_total {A B} (f : A -> result B) l :
  Forall (fun x => is_ok (f x) = true) l -> exists ys, mapM f l = Ok ys.
Proof.
  induction 1 as [|x l Hx _ [ys IH]]; simpl; [by eexists|].
  destruct (f x) as [y|]; [|done]. simpl. rewrite IH. simpl. by eexists.
Qed.

Lemma elem_of_concat {A} (x : A) (ls : list (list A)) :
  x ∈ concat ls <-> exists l, x ∈ l /\ l ∈ ls.
Proof.
  induction ls as [|l ls IH]; simpl.
  - split; [by intros ?%elem_of_nil | by intros (? & _ & ?%elem_of_nil)].
  - rewrite elem_of_app, IH. split.
    + intros [H | (l' & ? & ?)]; [exists l | exists l'];
        (split; [done|]); [apply list_elem_of_here | by apply list_elem_of_further].
    + intros (l' & Hx & [-> | ?]%elem_of_cons); [by left | right; eauto].
Qed.

Lemma Forall_filter_sub {A} (P Q : A -> Prop) `{forall x, Decision (Q x)} l :
  Forall P l -> Forall P (filter Q l).
Proof.
  rewrite !Forall_forall. intros H1 x [_ ?]%list_elem_of_filter. auto.
Qed.

(** *** Grouping *)

Lemma group_by_id_lookup rows m0 m cid :
  group_by_id rows m0 = Ok m ->
  m !! cid =
    match filter (fun row => can_id_is cid row = true) rows with
    | [] => m0 !! cid
    | l => Some (default [] (m0 !! cid) ++ l)
    end.
Proof.
  revert m0. induction rows as [|r rows IH]; intros m0; simpl.
  - by intros [= <-].
  - destruct (row_can_id r) as [c|] eqn:Hc; simpl; [|done].
    intros Hm. rewrite (IH _ Hm). unfold append_row.
    destruct (decide (c = cid)) as [-> | Hne].
    + rewrite filter_cons_True by (unfold can_id_is; rewrite Hc; lia).
      rewrite lookup_insert_eq. simpl.
      destruct (filter _ rows); [done|]. by rewrite <- app_assoc.
    + rewrite filter_cons_False
        by (unfold can_id_is; rewrite Hc; destruct (Z.eqb_spec c cid); done).
      by rewrite lookup_insert_ne.
Qed.

Lemma group_by_id_total rows m0 :
  Forall (fun row => is_ok (row_can_id row) = true) rows ->
  exists m, group_by_id rows m0 = Ok m.
Proof.
  intros H. revert m0. induction H as [|r rows Hr _ IH]; intros m0; simpl.
  - by eexists.
  - destruct (row_can_id r); [|done]. simpl. apply IH.
Qed.

(** *** The DLC loop *)

Lemma parse_int_blank v d :
  strip (or_empty v) = EmptyString -> parse_int v d = Ok d.
Proof. intros H. unfold parse_int. by rewrite H. Qed.

Lemma parse_int_explicit v d :
  strip (or_empty v) <> EmptyString ->
  parse_int v d = int_of_text (strip (or_empty v)).
Proof.
  intros H. unfold parse_int.
  by destruct (String.eqb_spec (strip (or_empty v)) "").
Qed.

Lemma is_ok_parse_int v d d' : is_ok (parse_int v d) = is_ok (parse_int v d').
Proof.
  destruct (decide (strip (or_empty v) = EmptyString)) as [E | E].
  - by rewrite !parse_int_blank.
  - by rewrite !parse_int_explicit.
Qed.

(** The value the loop ends with: that of the last field that is not
    blank, the initial value when all are blank. *)
Lemma message_dlc_last sigs d0 d :
  message_dlc sigs d0 = Ok d ->
  match last (explicit_dlc_texts sigs) with
  | None => d = d0
  | Some t => int_of_text t = Ok d
  end.
Proof.
  revert d0. induction sigs as [|s sigs IH]; intros d0; simpl.
  - by intros [= <-].
  - unfold explicit_dlc_texts. rewrite fmap_cons.
    fold (explicit_dlc_texts sigs).
    destruct (decide (strip (or_empty (row_get_default s "dlc" "")) = EmptyString))
      as [E | E].
    + rewrite parse_int_blank by done. simpl.
      rewrite filter_cons_False by (intros ?; done).
      apply IH.
    + rewrite parse_int_explicit by done.
      rewrite filter_cons_True by done.
      destruct (int_of_text _) as [v|] eqn:Hv; simpl; [|done].
      intros Hd. specialize (IH _ Hd). fold (explicit_dlc_texts sigs).
      destruct (explicit_dlc_texts sigs) as [|t ts] eqn:Et.
      * simpl in *. by subst.
      * rewrite last_cons. destruct (last (t :: ts)) eqn:El; [done|].
        by apply last_None in El.
Qed.

Lemma message_dlc_total sigs d0 :
  Forall (fun s => is_ok (parse_int (row_get_default s "dlc" "") DEFAULT_DLC) = true)
         sigs ->
  exists d, message_dlc sigs d0 = Ok d.
Proof.
  intros H. revert d0. induction H as [|s sigs Hs _ IH]; intros d0; simpl.
  - by eexists.
  - rewrite (is_ok_parse_int _ _ d0) in Hs.
    destruct (parse_int _ d0); [|done]. simpl. apply IH.
Qed.

(** *** Lines *)

Lemma signal_line_not_BO s l cid d : signal_line s = Ok l -> l <> BO cid d.
Proof.
  unfold signal_line.
  repeat (match goal with
          | |- context [mbind _ ?m] =>
              let x := fresh in destruct m as [x|]; simpl; [|done]
          | |- context [match ?o with Some _ => _ | None => _ end] =>
              destruct o; simpl; [|done]
          end).
  by intros [= <-].
Qed.

Lemma message_block_BO cid sigs block c d :
  message_block cid sigs = Ok block -> BO c d ∈ block ->
  c = cid /\ message_dlc sigs DEFAULT_DLC = Ok d.
Proof.
  unfold message_block.
  destruct (message_dlc sigs DEFAULT_DLC) as [d0|]; simpl; [|done].
  destruct (mapM signal_line sigs) as [sgs|] eqn:Hsgs; simpl; [|done].
  intros [= <-]. rewrite elem_of_cons, elem_of_app, list_elem_of_singleton.
  intros [[= -> ->] | [Hin | ?]]; [done | | done].
  apply mapM_result_inv in Hsgs.
  destruct (list_elem_of_lookup_1 _ _ Hin) as [i Hi].
  destruct (Forall2_lookup_r _ _ _ _ _ Hsgs Hi) as (s & _ & Hs).
  by destruct (signal_line_not_BO _ _ c d Hs).
Qed.

Lemma BO_not_in_preamble c d : BO c d ∉ preamble.
Proof.
  unfold preamble. intros H.
  repeat (apply elem_of_cons in H as [H | H]; [done|]).
  by apply elem_of_nil in H.
Qed.

(** *** The document *)

Lemma grouped_signals table m cid :
  group_by_id (named_rows table) ∅ = Ok m ->
  default [] (m !! cid) = signals_of cid table.
Proof.
  intros Hm. rewrite (group_by_id_lookup _ _ _ cid Hm), lookup_empty.
  unfold signals_of. by destruct (filter _ _).
Qed.

Lemma sorted_keys_present table m cid :
  group_by_id (named_rows table) ∅ = Ok m ->
  signals_of cid table <> [] -> cid ∈ sorted_keys m.
Proof.
  intros Hm Hne. unfold sorted_keys.
  rewrite merge_sort_Permutation, elem_of_elements, elem_of_dom.
  rewrite (group_by_id_lookup _ _ _ cid Hm), lookup_empty.
  fold (signals_of cid table).
  destruct (signals_of cid table); [done | by eexists].
Qed.

Lemma message_block_total cid sigs :
  Forall row_parses sigs -> exists block, message_block cid sigs = Ok block.
Proof.
  intros H. unfold message_block.
  destruct (message_dlc_total sigs DEFAULT_DLC) as [d ->].
  { eapply Forall_impl; [exact H|]. by intros s (_ & ? & _). }
  destruct (mapM_result_total signal_line sigs) as [sgs ->].
  { eapply Forall_impl; [exact H|]. by intros s (_ & _ & ?). }
  simpl. by eexists.
Qed.

(** When every named row parses, [main] returns the preamble followed by
    one block per id, in the order of [sorted_keys]. *)
Lemma main_lines table :
  Forall row_parses (named_rows table) ->
  exists m blocks,
    group_by_id (named_rows table) ∅ = Ok m
    /\ Forall2 (fun cid block => message_block cid (signals_of cid table) = Ok block)
               (sorted_keys m) blocks
    /\ main table = Ok (preamble ++ concat blocks).
Proof.
  intros Hall.
  destruct (group_by_id_total (named_rows table) ∅) as [m Hm].
  { eapply Forall_impl; [exact Hall|]. by intros s (? & _). }
  destruct (mapM_result_total
              (fun cid => message_block cid (default [] (m !! cid)))
              (sorted_keys m)) as [blocks Hblocks].
  { apply Forall_forall. intros cid _.
    rewrite (grouped_signals table m cid Hm).
    destruct (message_block_total cid (signals_of cid table)) as [b ->]; [|done].
    unfold signals_of. by apply Forall_filter_sub. }
  exists m, blocks. split; [done|]. split.
  - apply mapM_result_inv in Hblocks.
    eapply Forall2_impl; [exact Hblocks|]. intros cid b Hb. simpl in Hb.
    by rewrite (grouped_signals table m cid Hm) in Hb.
  - unfold main. rewrite Hm. simpl. by rewrite Hblocks.
Qed.

(** C7, as stated, fails when a row gives the default value explicitly
    after another value: with DLC fields 4 then 8 for one id, the values
    encountered are 4 and 8, the last one other than the default is 4, and
    the [BO_] line carries 8. *)
Lemma explicit_default_dlc_wins :
  CsvToDbc.main
    [mk_row ["A"; "1"; ""; "0"; "8"; "0"; "1"; ""; ""; ""; ""; "4"];
     mk_row ["B"; "1"; ""; "8"; "8"; "0"; "1"; ""; ""; ""; ""; "8"]]
  = Ok (preamble ++
        [ BO 1 8;
          SG "A" 0 8 1 "+" (SFone 53 1024) (S754_zero false)
             (S754_zero false) (S754_zero false) "";
          SG "B" 8 8 1 "+" (SFone 53 1024) (S754_zero false)
             (S754_zero false) (S754_zero false) "";
          Text "" ])
  /\ signal_dlcs
       [mk_row ["A"; "1"; ""; "0"; "8"; "0"; "1"; ""; ""; ""; ""; "4"];
        mk_row ["B"; "1"; ""; "8"; "8"; "0"; "1"; ""; ""; ""; ""; "8"]]
     = Ok [4; 8]
  /\ last_non_default [4; 8] = 4
  /\ 4 <> 8.
Proof. repeat split; try (vm_compute; reflexivity). done. Qed.

(** C7, amended.  When every named row of the table parses, the document
    is produced, and for every id that has a signal the [BO_] line of that
    id is there, is the only one for that id, and carries the value of the
    last [dlc] field, in input row order among that id's signals, that is
    not blank (whether or not that value is 8), and the default 8 when
    all of them are blank. *)
Theorem bo_line_dlc_last_explicit (table : list dict_row) :
  Forall row_parses (named_rows table) ->
  exists lines,
    main table = Ok lines
    /\ forall cid, signals_of cid table <> [] ->
       exists d,
         BO cid d ∈ lines
         /\ (forall d', BO cid d' ∈ lines -> d' = d)
         /\ match last (explicit_dlc_texts (signals_of cid table)) with
            | None => d = DEFAULT_DLC
            | Some t => int_of_text t = Ok d
            end.
Proof.
  intros Hall.
  destruct (main_lines table Hall) as (m & blocks & Hm & Hblocks & Hmain).
  exists (preamble ++ concat blocks). split; [done|].
  intros cid Hne.
  pose proof (sorted_keys_present table m cid Hm Hne) as Hin.
  destruct (list_elem_of_lookup_1 _ _ Hin) as [i Hi].
  destruct (Forall2_lookup_l _ _ _ _ _ Hblocks Hi) as (block & Hbi & Hblock).
  pose proof Hblock as Hblock'. unfold message_block in Hblock'.
  destruct (message_dlc (signals_of cid table) DEFAULT_DLC) as [d|] eqn:Hd;
    simpl in Hblock'; [|done].
  destruct (mapM signal_line (signals_of cid table)) as [sgs|];
    simpl in Hblock'; [|done].
  injection Hblock' as Hb.
  exists d. split; [|split].
  - apply elem_of_app. right. apply elem_of_concat.
    exists block. split; [|by eapply list_elem_of_lookup_2].
    rewrite <- Hb. apply list_elem_of_here.
  - intros d' Hd'. apply elem_of_app in Hd' as [Hpre | Hd'].
    { by destruct (BO_not_in_preamble cid d'). }
    apply elem_of_concat in Hd' as (block' & Hin' & Hblock'in).
    destruct (list_elem_of_lookup_1 _ _ Hblock'in) as [j Hj].
    destruct (Forall2_lookup_r _ _ _ _ _ Hblocks Hj) as (k & _ & Hk).
    destruct (message_block_BO _ _ _ _ _ Hk Hin') as [-> Hd'].
    congruence.
  - by apply message_dlc_last.
Qed.

Lemma bo_line_dlc_last_explicit_witness :
  exists lines,
    main [mk_row ["A"; "1"; ""; "0"; "8"; "0"; "1"; ""; ""; ""; ""; "4"];
          mk_row ["B"; "1"; ""; "8"; "8"; "0"; "1"; ""; ""; ""; ""; ""]]
    = Ok lines
    /\ forall cid,
       signals_of cid
         [mk_row ["A"; "1"; ""; "0"; "8"; "0"; "1"; ""; ""; ""; ""; "4"];
          mk_row ["B"; "1"; ""; "8"; "8"; "0"; "1"; ""; ""; ""; ""; ""]] <> [] ->
       exists d,
         BO cid d ∈ lines
         /\ (forall d', BO cid d' ∈ lines -> d' = d)
         /\ match last (explicit_dlc_texts (signals_of cid
                  [mk_row ["A"; "1"; ""; "0"; "8"; "0"; "1"; ""; ""; ""; ""; "4"];
                   mk_row ["B"; "1"; ""; "8"; "8"; "0"; "1"; ""; ""; ""; ""; ""]])) with
            | None => d = DEFAULT_DLC
            | Some t => int_of_text t = Ok d
            end.
Proof.
  apply (bo_line_dlc_last_explicit
    [mk_row ["A"; "1"; ""; "0"; "8"; "0"; "1"; ""; ""; ""; ""; "4"];
     mk_row ["B"; "1"; ""; "8"; "8"; "0"; "1"; ""; ""; ""; ""; ""]]).
  repeat constructor; vm_compute; reflexivity.
Defined.

End DbcFacts.

(** ** Further properties of the codec *)

Section CodecMore.
Import Codec.

Lemma byte_high_bits b j : 8 <= j -> Z.testbit (byte_to_Z b) j = false.
Proof.
  intros Hj. pose proof (byte_to_Z_range b).
  rewrite <- (Z.mod_small (byte_to_Z b) (2 ^ 8)) by (change (2 ^ 8) with 256; lia).
  apply Z.mod_pow2_bits_high. lia.
Qed.

Lemma eq_of_low_bits v w n :
  0 <= n -> 0 <= v < 2 ^ n -> 0 <= w < 2 ^ n ->
  (forall j, 0 <= j < n -> Z.testbit v j = Z.testbit w j) -> v = w.
Proof.
  intros Hn Hv Hw Hbits. apply Z.bits_inj'. intros j Hj.
  destruct (Z.lt_ge_cases j n) as [Hlt | Hge]; [apply Hbits; lia|].
  rewrite <- (Z.mod_small v (2 ^ n)), <- (Z.mod_small w (2 ^ n)) by done.
  by rewrite !Z.mod_pow2_bits_high by lia.
Qed.

(** A field that is exactly byte [k] of the frame reads as that byte in
    both byte orders. *)
Theorem whole_byte_field_is_the_byte (data : list Byte.byte) (k : Z) (b : Byte.byte) :
  length data = 8%nat -> 0 <= k < 8 -> data !! Z.to_nat k = Some b ->
  get_little_endian data (8 * k) 8 = Ok (byte_to_Z b)
  /\ get_big_endian data (8 * k) 8 = Ok (byte_to_Z b).
Proof.
  intros Hlen Hk Hb. pose proof (byte_to_Z_range b) as Hr.
  assert (Hdiv : forall j, 0 <= j < 8 -> (8 * k + j) `div` 8 = k).
  { intros j Hj. rewrite Z.mul_comm, Z.div_add_l by lia.
    rewrite Z.div_small by lia. lia. }
  assert (Hmod : forall j, 0 <= j < 8 -> (8 * k + j) `mod` 8 = j).
  { intros j Hj. rewrite Z.add_comm, Z.mul_comm, Z.mod_add by lia.
    apply Z.mod_small. lia. }
  split.
  - destruct (get_little_endian_bits data (8 * k) 8) as (v & -> & Hv & Hbits);
      [lia | lia |].
    f_equal. apply (eq_of_low_bits v (byte_to_Z b) 8); [lia | done | |].
    { change (2 ^ 8) with 256. lia. }
    intros j Hj. rewrite Hbits by lia.
    destruct (Z.ltb_spec j 8); [|lia]. simpl.
    unfold frame_bit_le. by rewrite Hdiv, Hmod, Hb by lia.
  - destruct (get_big_endian_total data (8 * k) 8) as (v & Hv & Hrange);
      [done | lia | lia | lia |].
    rewrite Hv. f_equal.
    apply (eq_of_low_bits v (byte_to_Z b) 8); [lia | done | |].
    { change (2 ^ 8) with 256. lia. }
    intros j Hj.
    destruct (get_big_endian_bits data (8 * k) 8 v Hv ltac:(lia) (7 - j) ltac:(lia))
      as [_ Hbit].
    replace (8 - 1 - (7 - j)) with j in Hbit by lia. rewrite Hbit.
    unfold frame_bit_be. rewrite Hdiv, Hmod, Hb by lia. f_equal. lia.
Qed.

Lemma whole_byte_field_is_the_byte_witness :
  get_little_endian sample_frame (8 * 3) 8 = Ok 0x78
  /\ get_big_endian sample_frame (8 * 3) 8 = Ok 0x78.
Proof.
  apply (whole_byte_field_is_the_byte sample_frame 3 Byte.x78);
    [reflexivity | lia | reflexivity].
Defined.

Lemma be_bit_raises data sb i e : be_bit data sb i = Raise e -> e = IndexError.
Proof.
  unfold be_bit, bytes_getitem.
  destruct (_ && _); [destruct (data !! _)|]; simpl; congruence.
Qed.

Lemma mapM_result_raises {A B} (f : A -> result B) l e e0 :
  (forall x e', f x = Raise e' -> e' = e0) -> mapM f l = Raise e -> e = e0.
Proof.
  intros Hf. induction l as [|x l IH]; simpl; [done|].
  destruct (f x) as [y|e'] eqn:Ex; simpl.
  - destruct (mapM f l); simpl; [done|]. intros [= <-]. by apply IH.
  - intros [= <-]. by eapply Hf.
Qed.

(** A field that runs past the end of the 8-byte frame: Motorola
    extraction raises [IndexError], Intel extraction returns a value and
    reads the bits past the frame as zero. *)
Theorem field_past_the_frame (data : list Byte.byte) (start_bit bit_length : Z) :
  length data = 8%nat -> 0 <= start_bit -> 0 < bit_length ->
  64 < start_bit + bit_length ->
  get_big_endian data start_bit bit_length = Raise IndexError
  /\ exists v, get_little_endian data start_bit bit_length = Ok v
       /\ 0 <= v < 2 ^ Z.max 0 (64 - start_bit).
Proof.
  intros Hlen Hsb Hbl Hover. split.
  - rewrite get_big_endian_by_words. unfold be_by_words.
    destruct (mapM _ _) as [bits|e] eqn:Hm; simpl.
    + exfalso. apply mapM_result_inv in Hm.
      assert (Hlast : range bit_length !! Z.to_nat (bit_length - 1)
                      = Some (bit_length - 1)).
      { unfold range. rewrite lookup_seqZ_lt by lia. f_equal. lia. }
      destruct (Forall2_lookup_l _ _ _ _ _ Hm Hlast) as (b & _ & Hb).
      unfold be_bit in Hb.
      assert (8 <= (start_bit + (bit_length - 1)) `div` 8)
        by (apply Z.div_le_lower_bound; lia).
      rewrite bytes_getitem_nonneg in Hb by lia.
      rewrite lookup_ge_None_2 in Hb by lia. done.
    + f_equal. eapply mapM_result_raises; [|exact Hm].
      intros x e'. apply be_bit_raises.
  - destruct (get_little_endian_bits data start_bit bit_length)
      as (v & Hv & Hrange & Hbits); [lia | lia |].
    exists v. split; [done|]. split; [lia|].
    apply Z.bounded_iff_bits_nonneg; [lia | lia |].
    intros j Hj. rewrite Hbits by lia.
    unfold frame_bit_le.
    assert (8 <= (start_bit + j) `div` 8) by (apply Z.div_le_lower_bound; lia).
    rewrite lookup_ge_None_2 by lia. apply andb_false_r.
Qed.

Lemma field_past_the_frame_witness :
  get_big_endian sample_frame 60 8 = Raise IndexError
  /\ exists v, get_little_endian sample_frame 60 8 = Ok v
       /\ 0 <= v < 2 ^ Z.max 0 (64 - 60).
Proof.
  apply (field_past_the_frame sample_frame 60 8); [reflexivity | lia..].
Defined.

End CodecMore.

(** ** Facts about strings and number parsing *)

Section StringFacts.
Import Shape.

Lemma append_cons c s t : String c s +:+ t = String c (s +:+ t).
Proof. reflexivity. Qed.

Lemma append_empty_l s : EmptyString +:+ s = s.
Proof. reflexivity. Qed.

Lemma append_empty_r s : s +:+ EmptyString = s.
Proof.
  induction s as [|c s IH]; [done|]. by rewrite append_cons, IH.
Qed.

Lemma length_append s1 s2 :
  String.length (s1 +:+ s2) = (String.length s1 + String.length s2)%nat.
Proof.
  induction s1 as [|c s1 IH]; [done|]. rewrite append_cons. simpl. by rewrite IH.
Qed.

Lemma rev_app_rev_app s1 s2 s3 :
  String.rev_app (String.rev_app s1 s2) s3 = String.rev_app s2 (s1 +:+ s3).
Proof.
  revert s2 s3. induction s1 as [|c s1 IH]; intros s2 s3; [done|].
  rewrite append_cons. simpl. by rewrite IH.
Qed.

Lemma rev_rev s : String.rev (String.rev s) = s.
Proof.
  unfold String.rev. rewrite rev_app_rev_app. simpl.
  by rewrite append_empty_r.
Qed.

Lemma all_chars_append p s1 s2 :
  all_chars p (s1 +:+ s2) = all_chars p s1 && all_chars p s2.
Proof.
  induction s1 as [|c s1 IH]; [done|].
  rewrite append_cons. simpl. by rewrite IH, andb_assoc.
Qed.

Lemma all_chars_rev_app p s1 s2 :
  all_chars p (String.rev_app s1 s2) = all_chars p s1 && all_chars p s2.
Proof.
  revert s2. induction s1 as [|c s1 IH]; intros s2; simpl; [done|].
  rewrite IH. simpl. destruct (p c), (all_chars p s1); done.
Qed.

Lemma all_chars_impl (p q : ascii -> bool) s :
  (forall c, p c = true -> q c = true) ->
  all_chars p s = true -> all_chars q s = true.
Proof.
  intros Hpq. induction s as [|c s IH]; simpl; [done|].
  intros [Hc Hs]%andb_prop. by rewrite (Hpq c Hc), IH.
Qed.

Lemma lstrip_no_space s :
  all_chars (fun c => negb (isspace c)) s = true -> lstrip s = s.
Proof. destruct s as [|c s]; simpl; [done|]. by destruct (isspace c). Qed.

(** [strip] leaves a string without whitespace alone. *)
Lemma strip_no_space s :
  all_chars (fun c => negb (isspace c)) s = true -> strip s = s.
Proof.
  intros H. unfold strip, rstrip. rewrite (lstrip_no_space s H).
  rewrite lstrip_no_space; [apply rev_rev|].
  unfold String.rev. by rewrite all_chars_rev_app, H.
Qed.

(** Facts about single characters, checked on all 256 of them. *)
Lemma word_char_facts c :
  cls_word c = true -> isspace c = false.
Proof.
  destruct c as [[] [] [] [] [] [] [] []]; intros H;
    first [discriminate H | reflexivity].
Qed.

Lemma hex_char_facts c :
  is_hex_digit c = true ->
  cls_word c = true /\ isspace c = false /\ is_ascii_space c = false
  /\ Ascii.eqb c "_" = false /\ Ascii.eqb c "x" = false /\ Ascii.eqb c "X" = false
  /\ Ascii.eqb c "-" = false /\ Ascii.eqb c "+" = false
  /\ exists d, hex_val c = Some d /\ 0 <= d < 16.
Proof.
  destruct c as [[] [] [] [] [] [] [] []]; intros H;
    first [discriminate H
          | repeat split; try reflexivity;
            eexists; split; [vm_compute; reflexivity | lia]].
Qed.

Lemma hex_no_space s :
  all_chars is_hex_digit s = true ->
  all_chars (fun c => negb (isspace c)) s = true.
Proof.
  apply all_chars_impl. intros c Hc.
  destruct (hex_char_facts c Hc) as (_ & -> & _). done.
Qed.

Lemma word_no_space s :
  all_chars cls_word s = true ->
  all_chars (fun c => negb (isspace c)) s = true.
Proof.
  apply all_chars_impl. intros c Hc. by rewrite (word_char_facts c Hc).
Qed.

(** *** [int(s, 16)] on hexadecimal text *)

Lemma hex_digits_hex s acc prev :
  all_chars is_hex_digit s = true -> 0 <= acc ->
  s <> EmptyString \/ prev = true ->
  exists v, hex_digits s acc prev = Some v /\ 0 <= v.
Proof.
  revert acc prev. induction s as [|c s IH]; intros acc prev Hall Hacc Hne; simpl.
  - destruct Hne as [? | ->]; [done | eauto].
  - simpl in Hall. apply andb_prop in Hall as [Hc Hs].
    destruct (hex_char_facts c Hc) as (_ & _ & _ & -> & _ & _ & _ & _ & d & -> & Hd).
    apply IH; [done | lia | by right].
Qed.

Lemma int_base16_hex s :
  all_chars is_hex_digit s = true -> s <> EmptyString ->
  exists v, int_base16 s = Ok v /\ 0 <= v.
Proof.
  intros Hall Hne. unfold int_base16.
  rewrite (strip_no_space s (hex_no_space s Hall)).
  destruct s as [|c s]; [done|].
  pose proof Hall as Hall'. simpl in Hall'. apply andb_prop in Hall' as [Hc Hs].
  assert (Hsign : (let '(neg, t1) :=
                     match String c s with
                     | String "-" r => (true, r)
                     | String "+" r => (false, r)
                     | _ => (false, String c s)
                     end in (neg, t1)) = (false, String c s)).
  { destruct c as [[] [] [] [] [] [] [] []]; first [discriminate Hc | reflexivity]. }
  assert (Hpre : match String c s with
                 | String "0" (String x r) =>
                     if Ascii.eqb x "x" || Ascii.eqb x "X" then
                       match r with String "_" r' => r' | _ => r end
                     else String c s
                 | _ => String c s
                 end = String c s).
  { destruct s as [|x r].
    - destruct c as [[] [] [] [] [] [] [] []]; reflexivity.
    - simpl in Hs. apply andb_prop in Hs as [Hx _].
      destruct (hex_char_facts x Hx) as (_ & _ & _ & _ & -> & -> & _).
      destruct c as [[] [] [] [] [] [] [] []]; reflexivity. }
  destruct (hex_digits_hex (String c s) 0 false Hall ltac:(lia) ltac:(by left))
    as (v & Hv & Hv0).
  exists v. split; [|done].
  destruct (match String c s with
            | String "-" r => (true, r)
            | String "+" r => (false, r)
            | _ => (false, String c s)
            end) as [neg t1] eqn:E.
  injection Hsign as -> ->. rewrite Hpre, Hv. done.
Qed.

End StringFacts.

(** ** Names, ids and byte lists *)

Section ParserFacts.
Import Shape.

(** *** [sanitize_name] *)

Lemma replace_non_word_word s : all_chars cls_word (CsvToDbc.replace_non_word s) = true.
Proof.
  induction s as [|c s IH]; simpl; [done|]. rewrite IH, andb_true_r.
  by destruct (cls_word c) eqn:E.
Qed.

Lemma replace_non_word_id s :
  all_chars cls_word s = true -> CsvToDbc.replace_non_word s = s.
Proof.
  induction s as [|c s IH]; simpl; [done|].
  intros [Hc Hs]%andb_prop. by rewrite Hc, IH.
Qed.

Lemma sanitize_name_shape s :
  all_chars cls_word (CsvToDbc.sanitize_name s) = true
  /\ first_char_is (fun c => negb (is_digit c)) (CsvToDbc.sanitize_name s) = true.
Proof.
  unfold CsvToDbc.sanitize_name.
  pose proof (replace_non_word_word (strip s)) as Hw.
  destruct (CsvToDbc.replace_non_word (strip s)) as [|c w]; [by split|].
  change (String.eqb (String c w) "") with false. cbv iota.
  destruct (is_digit c) eqn:Hd.
  - split; [|done]. by rewrite append_cons, append_empty_l.
  - split; [done|]. simpl. by rewrite Hd.
Qed.

(** The name written on an [SG_] line is an identifier: not empty, made of
    letters, digits and underscores only, and not starting with a digit.
    Sanitizing an identifier changes nothing, so sanitizing twice is
    sanitizing once. *)
Theorem sanitize_name_identifier (s : string) :
  CsvToDbc.sanitize_name s <> EmptyString
  /\ all_chars cls_word (CsvToDbc.sanitize_name s) = true
  /\ first_char_is is_digit (CsvToDbc.sanitize_name s) = false
  /\ CsvToDbc.sanitize_name (CsvToDbc.sanitize_name s) = CsvToDbc.sanitize_name s
  /\ CsvToDbc.sanitize_name "3-Phase V" = "_3_Phase_V".
Proof.
  destruct (sanitize_name_shape s) as [Hw Hf].
  set (r := CsvToDbc.sanitize_name s) in *.
  split; [by destruct r|]. split; [done|].
  split; [destruct r as [|c r']; [done | simpl in *; by destruct (is_digit c)]|].
  split; [|reflexivity].
  unfold CsvToDbc.sanitize_name at 1.
  rewrite (strip_no_space r (word_no_space r Hw)), (replace_non_word_id r Hw).
  destruct r as [|c r']; [done|].
  change (String.eqb (String c r') "") with false. cbv iota.
  simpl in Hf. by destruct (is_digit c).
Qed.

(** *** Byte lists *)

Lemma mapM_result_length {A B} (f : A -> result B) l ys :
  mapM f l = Ok ys -> length ys = length l.
Proof. intros H%mapM_result_inv. symmetry. by eapply Forall2_length. Qed.

(** Whatever the number of tokens after the id, a comma-delimited line
    that parses yields exactly eight bytes; fewer than eight tokens is a
    [ValueError]. *)
Theorem csv_parts_give_8_bytes (rest : string) :
  (forall data, DecodeLog.parse_bytes_from_csv_parts rest = Ok data ->
     length data = 8%nat)
  /\ (forall e, DecodeLog.parse_bytes_from_csv_parts rest = Raise e ->
     e = ValueError).
Proof.
  unfold DecodeLog.parse_bytes_from_csv_parts.
  set (parts := match strip <$> split_on "," rest with
                | [p0] => if contains_char " " p0 then strip <$> split_ws p0
                          else strip <$> split_on "," rest
                | _ => strip <$> split_on "," rest
                end).
  destruct (Nat.ltb_spec (length parts) 8) as [Hlt | Hge].
  - split; [done | by intros e [= <-]].
  - split.
    + intros data Hd. rewrite (mapM_result_length _ _ _ Hd), length_take. lia.
    + intros e He. eapply mapM_result_raises; [|exact He].
      intros p e'. unfold int_base16, byte_of_int.
      repeat (match goal with
              | |- context [match ?x with _ => _ end] => destruct x
              | |- context [if ?x then _ else _] => destruct x
              end; simpl; try congruence).
Qed.

Lemma csv_parts_give_8_bytes_witness :
  exists data,
    DecodeLog.parse_bytes_from_csv_parts "01,02,03,04,05,06,07,08,09" = Ok data
    /\ length data = 8%nat.
Proof.
  eexists. split; [vm_compute; reflexivity|].
  apply (proj1 (csv_parts_give_8_bytes "01,02,03,04,05,06,07,08,09")).
  vm_compute; reflexivity.
Defined.

(** The frame decoder's byte argument: exactly eight tokens, separated by
    commas or whitespace, or a [ValueError]. *)
Theorem frame_bytes_are_8 (hex_str : string) :
  (forall data, DecodeFrame.parse_bytes hex_str = Ok data -> length data = 8%nat)
  /\ (length (split_ws (DecodeFrame.replace_commas hex_str)) <> 8%nat ->
      DecodeFrame.parse_bytes hex_str = Raise ValueError).
Proof.
  unfold DecodeFrame.parse_bytes.
  destruct (Nat.eqb_spec (length (split_ws (DecodeFrame.replace_commas hex_str))) 8)
    as [Heq | Hne]; simpl.
  - split; [|done]. intros data Hd. by rewrite (mapM_result_length _ _ _ Hd).
  - split; done.
Qed.

Lemma frame_bytes_are_8_witness :
  DecodeFrame.parse_bytes "01,02 03" = Raise ValueError.
Proof.
  apply (frame_bytes_are_8 "01,02 03"). vm_compute. lia.
Defined.

(** *** Hexadecimal data of a candump frame *)

Lemma byte_of_int_ok v : 0 <= v < 256 -> exists b, byte_of_int v = Ok b.
Proof.
  intros Hv. unfold byte_of_int.
  destruct (Z.leb_spec 0 v); [|lia]. destruct (Z.ltb_spec v 256); [|lia]. simpl.
  destruct (Byte.of_N (Z.to_N v)) as [b|] eqn:E; [by eexists|].
  apply Byte.of_N_None_iff in E. lia.
Qed.

Lemma bytes_fromhex_hex n s :
  String.length s = (2 * n)%nat -> all_chars is_hex_digit s = true ->
  exists bs, bytes_fromhex s = Ok bs /\ length bs = n.
Proof.
  revert s. induction n as [|n IH]; intros s Hlen Hall.
  - destruct s; [by exists [] | done].
  - destruct s as [|c [|d s]]; [done | simpl in Hlen; lia |].
    simpl in Hall. apply andb_prop in Hall as [Hc [Hd Hs]%andb_prop].
    destruct (hex_char_facts c Hc) as (_ & _ & Hsp & _ & _ & _ & _ & _ & hi & Hhi & ?).
    destruct (hex_char_facts d Hd) as (_ & _ & _ & _ & _ & _ & _ & _ & lo & Hlo & ?).
    destruct (IH s) as (bs & Hbs & Hl); [simpl in Hlen; lia | done |].
    destruct (byte_of_int_ok (16 * hi + lo)) as [b Hb]; [lia|].
    exists (b :: bs). simpl. rewrite Hsp, Hhi, Hlo, Hb. simpl. rewrite Hbs. simpl.
    split; [done | by rewrite Hl].
Qed.

Lemma hex_data_parses (hexdata : string) :
  all_chars is_hex_digit hexdata = true ->
  exists data,
    DecodeLog.parse_bytes_from_hex_data hexdata = Ok data
    /\ Z.of_nat (length data) = (Z.of_nat (String.length hexdata) + 1) `div` 2.
Proof.
  intros Hall. unfold DecodeLog.parse_bytes_from_hex_data.
  rewrite (strip_no_space hexdata (hex_no_space hexdata Hall)).
  destruct (String.eqb_spec hexdata "") as [-> | Hne]; [by exists []|].
  destruct (Nat.Even_or_Odd (String.length hexdata)) as [[k Hk] | [k Hk]].
  - assert (Z.of_nat (String.length hexdata) `mod` 2 = 0) as ->.
    { rewrite Hk, Nat2Z.inj_mul, Z.mul_comm. apply Z.mod_mul. lia. }
    simpl. destruct (bytes_fromhex_hex k hexdata Hk Hall) as (bs & -> & Hl).
    exists bs. split; [done|]. rewrite Hl, Hk.
    apply (Z.div_unique_pos _ 2 _ 1); lia.
  - assert (Z.of_nat (String.length hexdata) `mod` 2 = 1) as ->.
    { rewrite Hk, Nat2Z.inj_add, Nat2Z.inj_mul, Z.add_comm, Z.mul_comm.
      rewrite Z.mod_add by lia. done. }
    simpl.
    destruct (bytes_fromhex_hex (S k) (hexdata +:+ "0")) as (bs & -> & Hl).
    { rewrite length_append. simpl. lia. }
    { by rewrite all_chars_append, Hall. }
    exists bs. split; [done|]. rewrite Hl, Hk.
    apply (Z.div_unique_pos _ 2 _ 0); lia.
Qed.

(** Hexadecimal data never fails to parse: [n] hexadecimal digits give
    [n/2] bytes, rounded up. *)
Theorem hex_data_always_parses (hexdata : string) :
  all_chars is_hex_digit hexdata = true ->
  exists data,
    DecodeLog.parse_bytes_from_hex_data hexdata = Ok data
    /\ Z.of_nat (length data) = (Z.of_nat (String.length hexdata) + 1) `div` 2.
Proof. apply hex_data_parses. Qed.

Lemma hex_data_always_parses_witness :
  exists data,
    DecodeLog.parse_bytes_from_hex_data "0102030" = Ok data
    /\ Z.of_nat (length data) = (Z.of_nat (String.length "0102030") + 1) `div` 2.
Proof. apply (hex_data_always_parses "0102030"). reflexivity. Defined.

End ParserFacts.

(** ** The matcher, ids and candump lines *)

Section MatcherFacts.
Import Shape DecodeLog.

Lemma star_sound {A} p s (k : string -> option A) x :
  star p s k = Some x ->
  exists pre s', s = pre +:+ s' /\ all_chars p pre = true /\ k s' = Some x.
Proof.
  induction s as [|c r IH]; simpl.
  - intros Hk. by exists EmptyString, EmptyString.
  - destruct (p c) eqn:Hc.
    + destruct (star p r k) as [y|] eqn:Hs.
      * intros [= ->]. destruct (IH eq_refl) as (pre & s' & -> & Hpre & Hk).
        exists (String c pre), s'. simpl. by rewrite Hc, Hpre.
      * intros Hk. by exists EmptyString, (String c r).
    + intros Hk. by exists EmptyString, (String c r).
Qed.

(** What a successful run of the matcher has matched. *)
Lemma run_sound {A} r s caps (k : string -> captures -> option A) x :
  run r s caps k = Some x ->
  exists s' caps', matches r s caps s' caps' /\ k s' caps' = Some x.
Proof.
  revert s caps k x.
  induction r as [c | p | p | r1 IH1 r2 IH2 | r1 IH1 | name r1 IH1 | ];
    intros s caps k x; simpl.
  - destruct s as [|a s']; [done|].
    destruct (Ascii.eqb_spec a c) as [-> | _]; [|done].
    intros Hk. exists s', caps. split; [constructor | done].
  - intros (pre & s' & -> & Hpre & Hk)%star_sound.
    exists s', caps. split; [by constructor | done].
  - destruct s as [|a s0]; [done|]. destruct (p a) eqn:Ha; [|done].
    intros (pre & s' & -> & Hpre & Hk)%star_sound.
    exists s', caps. split; [by constructor | done].
  - intros (s1 & caps1 & Hm1 & H2)%IH1.
    destruct (IH2 _ _ _ _ H2) as (s2 & caps2 & Hm2 & Hk).
    exists s2, caps2. split; [by econstructor | done].
  - destruct (run r1 s caps k) as [y|] eqn:Hr.
    + intros [= ->]. destruct (IH1 _ _ _ _ Hr) as (s' & caps' & Hm & Hk).
      exists s', caps'. split; [by constructor | done].
    + intros Hk. exists s, caps. split; [apply matches_opt_skipped | done].
  - intros (s' & caps' & Hm & Hk)%IH1.
    exists s', ((name, consumed s s') :: caps'). split; [by constructor | done].
  - destruct s as [|c [|d s']]; [| |done].
    + intros Hk. exists EmptyString, caps. split; [constructor; by left | done].
    + destruct (Z.eqb_spec (code c) 10) as [Hc|]; [|done].
      intros Hk. exists (String c EmptyString), caps.
      split; [constructor; right; by exists c | done].
Qed.

Lemma substring_prefix pre s : substring 0 (String.length pre) (pre +:+ s) = pre.
Proof.
  induction pre as [|c pre IH]; [by destruct s|].
  rewrite append_cons. simpl. by rewrite IH.
Qed.

(** The text consumed in front of [s]. *)
Lemma consumed_append pre s : consumed (pre +:+ s) s = pre.
Proof.
  unfold consumed. rewrite length_append.
  replace (String.length pre + String.length s - String.length s)%nat
    with (String.length pre) by lia.
  apply substring_prefix.
Qed.

(** [re.fullmatch] of one or more characters of a class. *)
Lemma star_fullmatch {A} p s (caps : A) :
  star p s (fun s' => if String.eqb s' EmptyString then Some caps else None)
  = if all_chars p s then Some caps else None.
Proof.
  induction s as [|c r IH]; simpl; [done|].
  destruct (p c); [|done]. rewrite IH. simpl. by destruct (all_chars p r).
Qed.

Lemma fullmatch_plus p s :
  bool_decide (is_Some (re_fullmatch (Plus p) s))
  = all_chars p s && negb (String.eqb s EmptyString).
Proof.
  unfold re_fullmatch. destruct s as [|c r]; simpl; [done|].
  destruct (p c); simpl; [|done].
  rewrite star_fullmatch, andb_true_r. by destruct (all_chars p r).
Qed.

(** The three tools read an id text alike, except where the log decoder
    takes prefix-less hexadecimal digits with a letter among them for
    hexadecimal: there it always returns a non-negative id, while the frame
    decoder and the DBC serializer read the text as a decimal number, which
    gives another id (as for "1e5") or a [ValueError] (as for "4D1"). *)
Theorem parse_can_id_across_tools (s : string) :
  DecodeFrame.parse_can_id s = CsvToDbc.parse_can_id s
  /\ (bare_hex_with_letter s = false ->
      DecodeLog.parse_can_id s = CsvToDbc.parse_can_id s)
  /\ (bare_hex_with_letter s = true ->
      exists v, DecodeLog.parse_can_id s = Ok v /\ 0 <= v)
  /\ DecodeLog.parse_can_id "1e5" = Ok 0x1e5
  /\ CsvToDbc.parse_can_id "1e5" = Ok 100000
  /\ DecodeLog.parse_can_id "4D1" = Ok 0x4D1
  /\ CsvToDbc.parse_can_id "4D1" = Raise ValueError.
Proof.
  split; [reflexivity|].
  split; [|split; [|repeat split; vm_compute; reflexivity]].
  - unfold bare_hex_with_letter, DecodeLog.parse_can_id, CsvToDbc.parse_can_id.
    rewrite fullmatch_plus. fold cls_hex.
    destruct (startswith "0x" (lower (strip s))); [done|]. simpl.
    unfold cls_hex. by intros ->.
  - unfold bare_hex_with_letter, DecodeLog.parse_can_id.
    rewrite fullmatch_plus. unfold cls_hex.
    destruct (startswith "0x" (lower (strip s))); [done|]. simpl.
    intros H. rewrite H.
    apply andb_prop in H as [[Hall Hne]%andb_prop _].
    apply int_base16_hex; [done|].
    by destruct (String.eqb_spec (strip s) "").
Qed.

Lemma parse_can_id_across_tools_witness :
  DecodeLog.parse_can_id "1233" = CsvToDbc.parse_can_id "1233"
  /\ exists v, DecodeLog.parse_can_id " 4d1 " = Ok v /\ 0 <= v.
Proof.
  pose proof (parse_can_id_across_tools "1233") as (_ & H1 & _).
  pose proof (parse_can_id_across_tools " 4d1 ") as (_ & _ & H2 & _).
  split; [apply H1; reflexivity | apply H2; reflexivity].
Defined.

Ltac invert_matches :=
  repeat match goal with
         | H : matches (Seq _ _) _ _ _ _ |- _ => inversion H; subst; clear H
         | H : matches (Group _ _) _ _ _ _ |- _ => inversion H; subst; clear H
         | H : matches (Chr _) _ _ _ _ |- _ => inversion H; subst; clear H
         | H : matches (Star _) _ _ _ _ |- _ => inversion H; subst; clear H
         | H : matches (Plus _) _ _ _ _ |- _ => inversion H; subst; clear H
         | H : matches (Opt _) _ _ _ _ |- _ => inversion H; subst; clear H
         | H : matches Eos _ _ _ _ |- _ => inversion H; subst; clear H
         end.

(** What [CAN_DUMP_RE] captures: an id of one or more hexadecimal digits
    and data of hexadecimal digits only. *)
Lemma candump_groups l m :
  re_match CAN_DUMP_RE l = Some m ->
  exists id_hex data_hex,
    group m "id" = Some id_hex /\ group m "data" = Some data_hex
    /\ all_chars is_hex_digit id_hex = true /\ id_hex <> EmptyString
    /\ all_chars is_hex_digit data_hex = true.
Proof.
  unfold re_match, CAN_DUMP_RE, seq_all.
  intros (s' & caps' & Hm & [= <-])%run_sound.
  invert_matches;
    repeat match goal with
           | |- context [consumed (String ?c (?pre +:+ ?s)) ?s] =>
               change (String c (pre +:+ s)) with (String c pre +:+ s);
               rewrite (consumed_append (String c pre) s)
           | |- context [consumed (?pre +:+ ?s) ?s] =>
               rewrite (consumed_append pre s)
           end;
    (eexists _, _; split; [reflexivity|]; split; [reflexivity|];
     split; [simpl; unfold cls_hex in *;
             repeat match goal with H : _ = true |- _ => rewrite H end; done |];
     split; [done | done]).
Qed.

Lemma non_csv_line_result (line : string) :
  re_match CSV_RE (strip line) = None ->
  exists r,
    parse_frame_line line = Ok r
    /\ forall ts cid data, r = Some (ts, cid, data) ->
       0 <= cid
       /\ exists m data_hex,
            re_match CAN_DUMP_RE (strip line) = Some m
            /\ ts = group m "ts"
            /\ group m "data" = Some data_hex
            /\ Z.of_nat (length data)
               = (Z.of_nat (String.length data_hex) + 1) `div` 2.
Proof.
  intros Hcsv. unfold parse_frame_line. rewrite Hcsv.
  destruct (String.eqb (strip line) "" || startswith "#" (strip line));
    [by exists None|].
  destruct (re_match CAN_DUMP_RE (strip line)) as [m|] eqn:Hm; [|by exists None].
  destruct (candump_groups _ _ Hm) as (id_hex & data_hex & Hid & Hdata & Hh & Hne & Hd).
  rewrite Hid, Hdata. simpl.
  destruct (int_base16_hex id_hex Hh Hne) as (cid & -> & Hcid).
  destruct (hex_data_parses data_hex Hd) as (data & -> & Hlen).
  simpl. eexists. split; [reflexivity|].
  intros ts cid' data' [= <- <- <-]. split; [done|].
  exists m, data_hex. by rewrite Hdata.
Qed.

Lemma non_csv_line_parses (line : string) :
  re_match CSV_RE (strip line) = None -> exists r, parse_frame_line line = Ok r.
Proof. intros (r & Hr & _)%non_csv_line_result. eauto. Qed.

(** A line that is not comma-delimited never makes [parse_frame_line]
    raise.  It is either dropped, or it is a candump frame: then the id is
    not negative, the timestamp is the [ts] group (absent when the line has
    none), and [n] hexadecimal data digits give [n/2] bytes, rounded up. *)
Theorem non_csv_line_never_raises (line : string) :
  re_match CSV_RE (strip line) = None ->
  exists r,
    parse_frame_line line = Ok r
    /\ forall ts cid data, r = Some (ts, cid, data) ->
       0 <= cid
       /\ exists m data_hex,
            re_match CAN_DUMP_RE (strip line) = Some m
            /\ ts = group m "ts"
            /\ group m "data" = Some data_hex
            /\ Z.of_nat (length data)
               = (Z.of_nat (String.length data_hex) + 1) `div` 2.
Proof. apply non_csv_line_result. Qed.

Lemma non_csv_line_never_raises_witness :
  exists r,
    parse_frame_line "(1.5) can0 4D1#01020" = Ok r
    /\ forall ts cid data, r = Some (ts, cid, data) ->
       0 <= cid
       /\ exists m data_hex,
            re_match CAN_DUMP_RE (strip "(1.5) can0 4D1#01020") = Some m
            /\ ts = group m "ts"
            /\ group m "data" = Some data_hex
            /\ Z.of_nat (length data)
               = (Z.of_nat (String.length data_hex) + 1) `div` 2.
Proof. apply (non_csv_line_never_raises "(1.5) can0 4D1#01020"). reflexivity. Defined.

End MatcherFacts.

(** ** Conversion of extracted integers to floats *)

Section FloatFacts.

Lemma digits2_pos_bounds p :
  2 ^ (Z.pos (digits2_pos p) - 1) <= Z.pos p < 2 ^ Z.pos (digits2_pos p).
Proof.
  induction p as [p IH | p IH |]; simpl digits2_pos.
  - rewrite Pos2Z.inj_succ, Z.pow_succ_r by lia.
    replace (Z.succ (Z.pos (digits2_pos p)) - 1)
      with (Z.succ (Z.pos (digits2_pos p) - 1)) by lia.
    rewrite Z.pow_succ_r by lia. lia.
  - rewrite Pos2Z.inj_succ, Z.pow_succ_r by lia.
    replace (Z.succ (Z.pos (digits2_pos p)) - 1)
      with (Z.succ (Z.pos (digits2_pos p) - 1)) by lia.
    rewrite Z.pow_succ_r by lia. lia.
  - simpl. lia.
Qed.

Lemma Zdigits2_le m k : 0 <= k -> 0 <= m < 2 ^ k -> 0 <= Zdigits2 m <= k.
Proof.
  intros Hk Hm. destruct m as [|p|p]; simpl; [lia | | lia].
  split; [lia|]. pose proof (digits2_pos_bounds p) as [Hlo _].
  destruct (Z.le_gt_cases (Z.pos (digits2_pos p)) k) as [|Hgt]; [done|].
  assert (2 ^ k <= 2 ^ (Z.pos (digits2_pos p) - 1))
    by (apply Z.pow_le_mono_r; lia).
  lia.
Qed.

Lemma shr_1_bounds mrs :
  0 <= shr_m mrs -> 0 <= shr_m (shr_1 mrs) <= shr_m mrs.
Proof. destruct mrs as [[|[p|p|]|p] r s]; simpl; lia. Qed.

Lemma iter_shr_1_bounds (n : positive) mrs :
  0 <= shr_m mrs -> 0 <= shr_m (SpecFloat.iter_pos shr_1 n mrs) <= shr_m mrs.
Proof.
  revert mrs. induction n as [n IH | n IH |]; intros mrs Hm; simpl.
  - pose proof (shr_1_bounds mrs Hm).
    pose proof (IH (shr_1 mrs) ltac:(lia)).
    pose proof (IH (SpecFloat.iter_pos shr_1 n (shr_1 mrs)) ltac:(lia)). lia.
  - pose proof (IH mrs Hm).
    pose proof (IH (SpecFloat.iter_pos shr_1 n mrs) ltac:(lia)). lia.
  - by apply shr_1_bounds.
Qed.

Lemma shr_fexp_bounds m e l :
  0 <= m ->
  0 <= shr_m (shr_fexp 53 1024 m e l).1 <= m
  /\ (shr_fexp 53 1024 m e l).2 = Z.max e (fexp 53 1024 (Zdigits2 m + e)).
Proof.
  intros Hm. unfold shr_fexp, shr.
  assert (Hrec : shr_m (shr_record_of_loc m l) = m) by (by destruct l as [|[]]).
  destruct (fexp 53 1024 (Zdigits2 m + e) - e) as [|p|p] eqn:E; simpl.
  - rewrite Hrec. lia.
  - pose proof (iter_shr_1_bounds p (shr_record_of_loc m l)) as Hb.
    rewrite Hrec in Hb. lia.
  - rewrite Hrec. lia.
Qed.

Lemma round_nearest_even_bounds m l :
  m <= round_nearest_even m l <= m + 1.
Proof.
  unfold round_nearest_even. destruct l as [|[]]; try lia.
  destruct (Z.even m); lia.
Qed.

Lemma fexp_le x : fexp 53 1024 x <= Z.max (x - 53) 0.
Proof. unfold fexp, emin. lia. Qed.

(** Rounding a mantissa below [2^117] at a non-positive exponent never
    overflows. *)
Lemma binary_round_aux_finite s m e :
  0 < m < 2 ^ 117 -> e <= 0 ->
  match binary_round_aux 53 1024 s m e loc_Exact with
  | S754_infinity _ | S754_nan => False
  | _ => True
  end.
Proof.
  intros Hm He. unfold binary_round_aux.
  pose proof (shr_fexp_bounds m e loc_Exact ltac:(lia)) as [Hm1 He1].
  destruct (shr_fexp 53 1024 m e loc_Exact) as [mrs' e'] eqn:E1.
  simpl in Hm1, He1.
  pose proof (round_nearest_even_bounds (shr_m mrs') (loc_of_shr_record mrs')) as Hr.
  set (m1 := round_nearest_even (shr_m mrs') (loc_of_shr_record mrs')) in *.
  pose proof (shr_fexp_bounds m1 e' loc_Exact ltac:(lia)) as [Hm2 He2].
  destruct (shr_fexp 53 1024 m1 e' loc_Exact) as [mrs'' e''] eqn:E2.
  simpl in Hm2, He2.
  destruct (shr_m mrs'') as [|p|p]; [done | | lia].
  assert (0 <= Zdigits2 m <= 117) by (apply Zdigits2_le; lia).
  assert (0 <= Zdigits2 m1 <= 118).
  { apply Zdigits2_le; [lia|]. split; [lia|].
    replace 118 with (Z.succ 117) by lia. rewrite Z.pow_succ_r by lia. lia. }
  pose proof (fexp_le (Zdigits2 m + e)). pose proof (fexp_le (Zdigits2 m1 + e')).
  destruct (Z.leb_spec e'' (1024 - 53)); [done | lia].
Qed.

Lemma iter_xO_value m d : Z.pos (Pos.iter xO m d) = Z.pos m * 2 ^ Z.pos d.
Proof.
  induction d as [|d IH] using Pos.peano_ind.
  - simpl. lia.
  - rewrite Pos.iter_succ, Pos2Z.inj_succ, Z.pow_succ_r by lia.
    rewrite Pos2Z.inj_xO, IH. lia.
Qed.

Lemma binary_round_finite s m :
  Z.pos m < 2 ^ 64 ->
  match binary_round 53 1024 s m 0 with
  | S754_infinity _ | S754_nan => False
  | _ => True
  end.
Proof.
  intros Hm. unfold binary_round, shl_align.
  set (ex' := fexp 53 1024 (Z.pos (digits2_pos m) + 0)).
  assert (- 52 <= ex') by (unfold ex', fexp, emin; lia).
  destruct (ex' - 0) as [|d|d] eqn:E.
  - apply binary_round_aux_finite; [|lia].
    split; [lia|]. etrans; [exact Hm|]. apply Z.pow_lt_mono_r; lia.
  - apply binary_round_aux_finite; [|lia].
    split; [lia|]. etrans; [exact Hm|]. apply Z.pow_lt_mono_r; lia.
  - apply binary_round_aux_finite; [|lia].
    rewrite iter_xO_value. split; [lia|].
    assert (2 ^ Z.pos d <= 2 ^ 52) by (apply Z.pow_le_mono_r; lia).
    replace 117 with (64 + 53) by lia. rewrite Z.pow_add_r by lia.
    assert (2 ^ 52 < 2 ^ 53) by (apply Z.pow_lt_mono_r; lia).
    nia.
Qed.

(** An integer of at most 64 bits, of either sign, converts to a float. *)
Lemma float_of_int_ok z :
  - 2 ^ 64 < z < 2 ^ 64 -> exists f, float_of_int z = Ok f.
Proof.
  intros Hz. unfold float_of_int, binary_normalize.
  destruct z as [|p|p].
  - by eexists.
  - pose proof (binary_round_finite false p ltac:(lia)).
    destruct (binary_round 53 1024 false p 0); try contradiction; by eexists.
  - pose proof (binary_round_finite true p ltac:(lia)).
    destruct (binary_round 53 1024 true p 0); try contradiction; by eexists.
Qed.

End FloatFacts.

(** ** Runs of the log decoder *)

Section RunFacts.
Import Shape Codec DecodeLog Samples.

Lemma to_signed_value raw bl :
  1 <= bl -> 0 <= raw < 2 ^ bl -> to_signed raw bl = Ok (twos_complement raw bl).
Proof.
  intros Hbl Hraw. unfold to_signed, twos_complement.
  rewrite !lshift_nonneg by lia. simpl.
  rewrite land_shiftl1 by lia. rewrite Z.shiftl_1_l.
  destruct (Z.testbit raw (bl - 1)); [|done].
  destruct (Z.eqb_spec (2 ^ (bl - 1)) 0) as [E|]; [|done].
  pose proof (Z.pow_pos_nonneg 2 (bl - 1)). lia.
Qed.

Lemma pow2_le_64 bl : 0 <= bl <= 64 -> 0 < 2 ^ bl <= 2 ^ 64.
Proof.
  intros H. split; [apply Z.pow_pos_nonneg; lia | apply Z.pow_le_mono_r; lia].
Qed.

Lemma decode_signal_in_frame
    (ts : option string) (cid : Z) (data : list Byte.byte) (sd : SignalDef) :
  length data = 8%nat -> field_in_frame sd ->
  exists row,
    decode_signal ts cid data sd = Ok row
    /\ out_timestamp row = default "" ts
    /\ out_can_id row = "0x" +:+ format_X cid
    /\ out_signal row = name sd /\ out_units row = units sd
    /\ (if signed sd
        then - 2 ^ (bit_length sd - 1) <= out_raw row < 2 ^ (bit_length sd - 1)
        else 0 <= out_raw row < 2 ^ bit_length sd).
Proof.
  intros Hlen (Hsb & Hbl & Hle). unfold decode_signal.
  assert (Hraw : exists raw,
            (if big_endian sd
             then get_big_endian data (start_bit sd) (bit_length sd)
             else get_little_endian data (start_bit sd) (bit_length sd)) = Ok raw
            /\ 0 <= raw < 2 ^ bit_length sd).
  { destruct (big_endian sd).
    - apply get_big_endian_total; lia.
    - destruct (get_little_endian_bits data (start_bit sd) (bit_length sd))
        as (v & Hv & Hr & _); [lia | lia | eauto]. }
  destruct Hraw as (raw & -> & Hr). simpl.
  pose proof (pow2_le_64 (bit_length sd) ltac:(lia)) as Hp.
  destruct (signed sd).
  - rewrite to_signed_value by lia. simpl.
    destruct (twos_complement_range raw (bit_length sd) Hbl Hr) as [Hs _].
    assert (2 ^ (bit_length sd - 1) < 2 ^ 64) by (apply Z.pow_lt_mono_r; lia).
    destruct (float_of_int_ok (twos_complement raw (bit_length sd))) as [f ->];
      [lia|].
    simpl. eexists. split; [reflexivity|]. simpl. repeat split; try done; lia.
  - simpl. destruct (float_of_int_ok raw) as [f ->]; [lia|].
    simpl. eexists. split; [reflexivity|]. simpl. repeat split; try done; lia.
Qed.

(** A signal whose field lies inside the frame always decodes: no
    exception, a raw value within the range of its width and signedness,
    and the row carries the frame's timestamp and id and the signal's name
    and units. *)
Theorem field_in_frame_decodes
    (ts : option string) (cid : Z) (data : list Byte.byte) (sd : SignalDef) :
  length data = 8%nat -> field_in_frame sd ->
  exists row,
    decode_signal ts cid data sd = Ok row
    /\ out_timestamp row = default "" ts
    /\ out_can_id row = "0x" +:+ format_X cid
    /\ out_signal row = name sd /\ out_units row = units sd
    /\ (if signed sd
        then - 2 ^ (bit_length sd - 1) <= out_raw row < 2 ^ (bit_length sd - 1)
        else 0 <= out_raw row < 2 ^ bit_length sd).
Proof. apply decode_signal_in_frame. Qed.

Lemma field_in_frame_decodes_witness :
  exists row,
    decode_signal (Some "1.0") 0x4D1 sample_frame (example_signal "S" "u" 8) = Ok row
    /\ out_timestamp row = "1.0"
    /\ out_can_id row = "0x" +:+ format_X 0x4D1
    /\ out_signal row = "S" /\ out_units row = "u"
    /\ 0 <= out_raw row < 2 ^ 16.
Proof.
  apply (field_in_frame_decodes (Some "1.0") 0x4D1 sample_frame
           (example_signal "S" "u" 8)); [reflexivity|].
  unfold field_in_frame. simpl. lia.
Defined.

Lemma decode_signals_total ts cid data sigs st :
  length data = 8%nat -> Forall field_in_frame sigs ->
  exists st', decode_signals ts cid data sigs st = Ok st'.
Proof.
  intros Hlen Hall. revert st.
  induction Hall as [|sd sigs Hsd _ IH]; intros st; simpl; [by eexists|].
  destruct (decode_signal_in_frame ts cid data sd Hlen Hsd) as (row & -> & _).
  simpl. apply IH.
Qed.

Lemma process_line_total signals_by_id st line :
  (forall cid sigs, signals_by_id !! cid = Some sigs -> Forall field_in_frame sigs) ->
  re_match CSV_RE (strip line) = None ->
  exists st', process_line signals_by_id st line = Ok st'.
Proof.
  intros Hsigs Hcsv. unfold process_line.
  destruct (non_csv_line_parses line Hcsv) as [r ->]. simpl.
  destruct r as [[[ts cid] data]|]; [|by eexists].
  destruct (signals_by_id !! cid) as [[|sd sigs]|] eqn:E; [by eexists | | by eexists].
  apply decode_signals_total; [apply normalize8_length | by eapply Hsigs].
Qed.

(** A log without comma-delimited lines never aborts the run when every
    signal of the table lies inside the frame: whatever the lines are, the
    loop reaches its end. *)
Theorem candump_log_never_aborts
    (signals_by_id : gmap Z (list SignalDef)) (lines : list string) (st : RunState) :
  (forall cid sigs, signals_by_id !! cid = Some sigs -> Forall field_in_frame sigs) ->
  Forall (fun line => re_match CSV_RE (strip line) = None) lines ->
  exists st', main_loop signals_by_id lines st = Ok st'.
Proof.
  intros Hsigs Hlines. revert st.
  induction Hlines as [|line lines Hline _ IH]; intros st; simpl; [by eexists|].
  destruct (process_line_total signals_by_id st line Hsigs Hline) as [st1 ->].
  simpl. apply IH.
Qed.

Lemma candump_log_never_aborts_witness :
  exists st',
    main_loop (example_table "S" "u" 8)
      [candump_line; "# comment"; "garbage"; "7FF#"; "4D1#FFF"] initial_state
    = Ok st'.
Proof.
  apply (candump_log_never_aborts (example_table "S" "u" 8)
           [candump_line; "# comment"; "garbage"; "7FF#"; "4D1#FFF"]
           initial_state).
  - intros cid sigs H. unfold example_table in H.
    apply lookup_singleton_Some in H as [_ <-].
    repeat constructor; simpl; lia.
  - repeat constructor.
Defined.

(** *** Counters *)

Lemma decode_signals_counts ts cid data sigs st st' :
  decode_signals ts cid data sigs st = Ok st' ->
  exists rows,
    written st' = written st ++ rows /\ length rows = length sigs
    /\ decoded_rows st' = decoded_rows st + Z.of_nat (length rows)
    /\ total_frames st' = total_frames st
    /\ skipped_frames st' = skipped_frames st.
Proof.
  revert st. induction sigs as [|sd sigs IH]; intros st; simpl.
  - intros [= <-]. exists []. by rewrite app_nil_r, Z.add_0_r.
  - destruct (decode_signal ts cid data sd) as [row|]; simpl; [|done].
    intros (rows & Hw & Hl & Hd & Ht & Hs)%IH. simpl in *.
    exists (row :: rows). rewrite Hw, <- app_assoc. simpl.
    repeat split; [by rewrite Hl | lia | done | done].
Qed.

Lemma process_line_counts signals_by_id st line st' :
  process_line signals_by_id st line = Ok st' ->
  exists rows,
    written st' = written st ++ rows
    /\ decoded_rows st' = decoded_rows st + Z.of_nat (length rows)
    /\ 0 <= skipped_frames st' - skipped_frames st
    /\ skipped_frames st' - skipped_frames st <= total_frames st' - total_frames st
    /\ total_frames st' - total_frames st <= 1.
Proof.
  unfold process_line. destruct (parse_frame_line line) as [r|]; simpl; [|done].
  destruct r as [[[ts cid] data]|].
  - destruct (signals_by_id !! cid) as [[|sd sigs]|] eqn:E.
    + intros [= <-]. exists []. simpl. rewrite app_nil_r.
      repeat split; try done; lia.
    + intros (rows & Hw & Hl & Hd & Ht & Hs)%decode_signals_counts. simpl in *.
      exists rows. repeat split; try done; lia.
    + intros [= <-]. exists []. simpl. rewrite app_nil_r.
      repeat split; try done; lia.
  - intros [= <-]. exists []. rewrite app_nil_r. simpl.
    repeat split; try done; lia.
Qed.

(** What a finished run has counted: the rows written so far are kept and
    only added to, [decoded_rows] grows by exactly the number of rows added,
    at most one frame is counted per line, and the frames counted as skipped
    are among the frames counted. *)
Theorem run_counters
    (signals_by_id : gmap Z (list SignalDef)) (lines : list string)
    (st st' : RunState) :
  main_loop signals_by_id lines st = Ok st' ->
  exists rows,
    written st' = written st ++ rows
    /\ decoded_rows st' = decoded_rows st + Z.of_nat (length rows)
    /\ 0 <= skipped_frames st' - skipped_frames st
    /\ skipped_frames st' - skipped_frames st <= total_frames st' - total_frames st
    /\ total_frames st' - total_frames st <= Z.of_nat (length lines).
Proof.
  revert st. induction lines as [|line lines IH]; intros st.
  - intros [= <-]. exists []. rewrite app_nil_r. simpl.
    repeat split; try done; lia.
  - simpl main_loop.
    destruct (process_line signals_by_id st line) as [st1|] eqn:E; simpl; [|done].
    apply process_line_counts in E as (rows1 & Hw1 & Hd1 & ? & ? & ?).
    intros (rows2 & Hw2 & Hd2 & ? & ? & ?)%IH.
    exists (rows1 ++ rows2). rewrite Hw2, Hw1, <- app_assoc, length_app.
    simpl length. repeat split; try done; lia.
Qed.

Lemma run_counters_witness :
  exists rows,
    [ {| out_timestamp := ""; out_can_id := "0x4D1"; out_signal := "S";
         out_value := S754_finite false 7219833152628327 (-47);
         out_units := "u"; out_raw := 513 |} ] = [] ++ rows
    /\ 1 = 0 + Z.of_nat (length rows)
    /\ 0 <= 1 - 0 /\ 1 - 0 <= 2 - 0 /\ 2 - 0 <= Z.of_nat 3.
Proof.
  apply (run_counters (example_table "S" "u" 8) ["hello"; "4D1#0102"; "5#"]
           initial_state
           {| total_frames := 2; decoded_rows := 1; skipped_frames := 1;
              written :=
                [ {| out_timestamp := ""; out_can_id := "0x4D1"; out_signal := "S";
                     out_value := S754_finite false 7219833152628327 (-47);
                     out_units := "u"; out_raw := 513 |} ] |}).
  vm_compute. reflexivity.
Defined.

(** Reading a log in two parts, the second from the state the first ended
    in, is reading it in one go; an exception in the first part is the
    exception of the whole. *)
Theorem run_in_two_parts
    (signals_by_id : gmap Z (list SignalDef)) (lines1 lines2 : list string)
    (st : RunState) :
  main_loop signals_by_id (lines1 ++ lines2) st
  = main_loop signals_by_id lines1 st ≫= main_loop signals_by_id lines2.
Proof.
  revert st. induction lines1 as [|line lines1 IH]; intros st; simpl; [done|].
  destruct (process_line signals_by_id st line); simpl; [apply IH | done].
Qed.

End RunFacts.

(** ** Loading and selecting signals *)

Section TableMore.
Import Shape DecodeLog Samples.

Lemma load_signals_from_fold rows m0 :
  load_signals_from rows m0
  = (fun loaded => fold_left append_signal (omap id loaded) m0)
      <$> mapM load_signal_row rows.
Proof.
  revert m0. induction rows as [|row rows IH]; intros m0; simpl; [done|].
  destruct (load_signal_row row) as [[sd|]|]; simpl; [| |done].
  - rewrite IH. by destruct (mapM load_signal_row rows).
  - rewrite IH. by destruct (mapM load_signal_row rows).
Qed.

Lemma fold_append_signal_lookup sds m0 cid :
  fold_left append_signal sds m0 !! cid
  = match filter (fun sd => can_id sd = cid) sds with
    | [] => m0 !! cid
    | l => Some (default [] (m0 !! cid) ++ l)
    end.
Proof.
  revert m0. induction sds as [|sd sds IH]; intros m0; simpl; [done|].
  rewrite IH. unfold append_signal.
  destruct (decide (can_id sd = cid)) as [<- | Hne].
  - rewrite filter_cons_True by done. rewrite lookup_insert_eq. simpl.
    destruct (filter _ sds); [done|]. by rewrite <- app_assoc.
  - rewrite filter_cons_False by done. by rewrite lookup_insert_ne.
Qed.

(** The table the log decoder works with: loading fails exactly where a
    row fails, with that row's exception; otherwise looking an id up gives
    the definitions loaded with that id, in row order, and no entry for an
    id no row has.  So no entry is an empty list, and every definition is
    filed under its own id. *)
Theorem load_signals_lookup (rows : list dict_row) :
  match loaded_signals rows with
  | Raise e => load_signals rows = Raise e
  | Ok sds =>
      exists by_id,
        load_signals rows = Ok by_id
        /\ (forall cid,
              by_id !! cid
              = match filter (fun sd => can_id sd = cid) sds with
                | [] => None
                | l => Some l
                end)
        /\ (forall cid sigs, by_id !! cid = Some sigs ->
              sigs <> [] /\ Forall (fun sd => can_id sd = cid) sigs)
  end.
Proof.
  unfold loaded_signals, load_signals. rewrite load_signals_from_fold.
  destruct (mapM load_signal_row rows) as [loaded|e]; simpl; [|done].
  eexists. split; [reflexivity|].
  assert (Hl : forall cid,
            fold_left append_signal (omap id loaded) ∅ !! cid
            = match filter (fun sd => can_id sd = cid) (omap id loaded) with
              | [] => None
              | l => Some l
              end).
  { intros cid. rewrite fold_append_signal_lookup, lookup_empty.
    by destruct (filter _ _). }
  split; [exact Hl|].
  intros cid sigs. rewrite Hl.
  destruct (filter _ _) as [|sd l] eqn:E; [done|].
  intros [= <-]. split; [done|]. rewrite <- E.
  apply Forall_forall. by intros x [? _]%list_elem_of_filter.
Qed.

Lemma load_signals_lookup_witness :
  exists by_id,
    load_signals [mk_row ["Speed"; "0x4D1"; "kph"; "0"; "16"; "0"; "0.1"; "";
                          ""; "unsigned"; "intel"; "8"]] = Ok by_id
    /\ (forall cid sigs, by_id !! cid = Some sigs ->
          sigs <> [] /\ Forall (fun sd => can_id sd = cid) sigs).
Proof.
  pose proof (load_signals_lookup
                [mk_row ["Speed"; "0x4D1"; "kph"; "0"; "16"; "0"; "0.1"; "";
                         ""; "unsigned"; "intel"; "8"]]) as H.
  destruct (loaded_signals _) as [sds|e] eqn:E; [|by vm_compute in E].
  destruct H as (by_id & H1 & _ & H3). by exists by_id.
Defined.

(** *** The frame decoder's selection *)

Lemma select_rows_cons can_id row table :
  DecodeFrame.select_rows can_id (row :: table)
  = if negb (truthy (row_get row "can_id"))
    then DecodeFrame.select_rows can_id table
    else
      cid_text ← row_getitem row "can_id";
      cid ← match cid_text with
            | Some s => DecodeFrame.parse_can_id s
            | None => Raise AttributeError
            end;
      rows ← DecodeFrame.select_rows can_id table;
      Ok (if cid =? can_id then row :: rows else rows).
Proof. reflexivity. Qed.

Lemma select_rows_cons_ok can_id row table :
  frame_row_id_parses row = true ->
  DecodeFrame.select_rows can_id (row :: table)
  = (fun rows => if frame_row_selected can_id row then row :: rows else rows)
      <$> DecodeFrame.select_rows can_id table.
Proof.
  intros Hp. rewrite select_rows_cons.
  unfold frame_row_id_parses, frame_row_selected, truthy, row_getitem,
    row_get in *.
  destruct (row !! "can_id") as [[t|]|]; simpl.
  - destruct (String.eqb t "") eqn:Et; simpl.
    + by destruct (DecodeFrame.select_rows can_id table).
    + simpl in Hp. destruct (DecodeFrame.parse_can_id t) as [c|]; [|done]. simpl.
      by destruct (DecodeFrame.select_rows can_id table).
  - by destruct (DecodeFrame.select_rows can_id table).
  - by destruct (DecodeFrame.select_rows can_id table).
Qed.

Lemma select_rows_cons_bad can_id row table :
  frame_row_id_parses row = false ->
  is_ok (DecodeFrame.select_rows can_id (row :: table)) = false.
Proof.
  intros Hp. rewrite select_rows_cons.
  unfold frame_row_id_parses, truthy, row_getitem, row_get in *.
  destruct (row !! "can_id") as [[t|]|]; [| done | done].
  destruct (String.eqb t "") eqn:Et; [done|]. simpl in *.
  by destruct (DecodeFrame.parse_can_id t).
Qed.

(** The frame decoder reads the id of every row that has one before it
    selects: if they all parse, the rows selected are exactly the rows of
    the requested id, in table order; if one does not, the run aborts, even
    when that row belongs to another message. *)
Theorem select_rows_filter (can_id : Z) (table : list dict_row) :
  (Forall (fun row => frame_row_id_parses row = true) table ->
   DecodeFrame.select_rows can_id table
   = Ok (filter (fun row => frame_row_selected can_id row = true) table))
  /\ (~ Forall (fun row => frame_row_id_parses row = true) table ->
      is_ok (DecodeFrame.select_rows can_id table) = false).
Proof.
  split.
  - induction 1 as [|row table Hrow _ IH]; [done|].
    rewrite select_rows_cons_ok, IH by done. simpl.
    destruct (frame_row_selected can_id row) eqn:E.
    + by rewrite filter_cons_True.
    + rewrite filter_cons_False; [done | by rewrite E].
  - induction table as [|row table IH]; intros Hnot.
    + destruct Hnot. constructor.
    + destruct (frame_row_id_parses row) eqn:Hrow.
      * rewrite select_rows_cons_ok by done.
        assert (Ht : ~ Forall (fun row => frame_row_id_parses row = true) table).
        { intros Hall. apply Hnot. by constructor. }
        specialize (IH Ht). by destruct (DecodeFrame.select_rows can_id table).
      * by apply select_rows_cons_bad.
Qed.

Lemma select_rows_filter_witness :
  DecodeFrame.select_rows 0x4D1
    [mk_row ["A"; "0x4D1"]; mk_row ["B"; ""]; mk_row ["C"; "7"]]
  = Ok (filter (fun row => frame_row_selected 0x4D1 row = true)
          [mk_row ["A"; "0x4D1"]; mk_row ["B"; ""]; mk_row ["C"; "7"]])
  /\ is_ok (DecodeFrame.select_rows 0x4D1
              [mk_row ["A"; "0x4D1"]; mk_row ["C"; "4D1"]]) = false.
Proof.
  split.
  - apply (select_rows_filter 0x4D1
             [mk_row ["A"; "0x4D1"]; mk_row ["B"; ""]; mk_row ["C"; "7"]]).
    repeat constructor.
  - apply (select_rows_filter 0x4D1 [mk_row ["A"; "0x4D1"]; mk_row ["C"; "4D1"]]).
    intros H. inversion H as [|? ? _ H']. inversion H' as [|? ? Hc _].
    vm_compute in Hc. discriminate Hc.
Defined.

End TableMore.

(** ** The layout of the DBC document *)

Section DbcMore.
Import Shape CsvToDbc Samples.








Lemma group_by_id_ok_inv rows m0 m :
  group_by_id rows m0 = Ok m ->
  Forall (fun row => is_ok (row_can_id row) = true) rows.
Proof.
  revert m0. induction rows as [|r rows IH]; intros m0; simpl; [done|].
  destruct (row_can_id r) eqn:E; simpl; [|done].
  intros Hm. constructor; [by rewrite E | by eapply IH].
Qed.




Lemma message_dlc_ok_inv sigs d0 d :
  message_dlc sigs d0 = Ok d ->
  Forall (fun s => is_ok (parse_int (row_get_default s "dlc" "") DEFAULT_DLC) = true)
         sigs.
Proof.
  revert d0. induction sigs as [|s sigs IH]; intros d0; simpl; [done|].
  destruct (parse_int _ d0) as [d1|] eqn:E; simpl; [|done].
  intros Hd. constructor; [|by eapply IH].
  by rewrite (is_ok_parse_int _ _ d0), E.
Qed.

(** The document is produced exactly when every named row parses: its id,
    its DLC and the numeric fields of its [SG_] line.  One row that does not
    makes the whole run raise, and no line is written. *)
Theorem dbc_written_iff_rows_parse (table : list dict_row) :
  is_ok (main table) = true <-> Forall row_parses (named_rows table).
Proof.
  split.
  - unfold main.
    destruct (group_by_id (named_rows table) ∅) as [m|] eqn:Hm; simpl; [|done].
    destruct (mapM _ (sorted_keys m)) as [blocks|] eqn:Hb; simpl; [|done].
    intros _. apply mapM_result_inv in Hb.
    pose proof (group_by_id_ok_inv _ _ _ Hm) as Hparse.
    apply Forall_forall. intros r Hr.
    pose proof (proj1 (Forall_forall _ _) Hparse r Hr) as Hid. simpl in Hid.
    destruct (row_can_id r) as [c|] eqn:Hc; [|by simpl in Hid].
    assert (Hin : r ∈ signals_of c table).
    { apply list_elem_of_filter. split; [|done].
      unfold can_id_is. rewrite Hc. lia. }
    assert (Hne : signals_of c table <> []).
    { intros E. rewrite E in Hin. by apply elem_of_nil in Hin. }
    pose proof (sorted_keys_present table m c Hm Hne) as Hkey.
    destruct (list_elem_of_lookup_1 _ _ Hkey) as [i Hi].
    destruct (Forall2_lookup_l _ _ _ _ _ Hb Hi) as (block & _ & Hblock).
    simpl in Hblock. rewrite (grouped_signals table m c Hm) in Hblock.
    unfold message_block in Hblock.
    destruct (message_dlc (signals_of c table) DEFAULT_DLC) as [d|] eqn:Hd;
      simpl in Hblock; [|done].
    destruct (mapM signal_line (signals_of c table)) as [sgs|] eqn:Hsgs;
      simpl in Hblock; [|done].
    split; [by rewrite Hc|]. split.
    + apply message_dlc_ok_inv in Hd.
      by apply (proj1 (Forall_forall _ _) Hd r Hin).
    + apply mapM_result_inv in Hsgs.
      destruct (list_elem_of_lookup_1 _ _ Hin) as [j Hj].
      destruct (Forall2_lookup_l _ _ _ _ _ Hsgs Hj) as (sg & _ & ->). done.
  - intros Hall. destruct (main_lines table Hall) as (m & blocks & _ & _ & ->).
    done.
Qed.

Lemma dbc_written_iff_rows_parse_witness :
  is_ok (main [mk_row ["A"; "7"; ""; "0"; "8"; "0"; "1"; ""; ""; ""; ""; "4"]])
  = true.
Proof.
  apply (dbc_written_iff_rows_parse
           [mk_row ["A"; "7"; ""; "0"; "8"; "0"; "1"; ""; ""; ""; ""; "4"]]).
  repeat constructor; vm_compute; reflexivity.
Defined.

End DbcMore.

(** ** The two decoders on the same row *)

Section CrossTool.
Import Codec DecodeLog Samples Shape.

Lemma bind_ok_inv {A B} (m : result A) (f : A -> result B) b :
  m ≫= f = Ok b -> exists a, m = Ok a /\ f a = Ok b.
Proof. destruct m as [a|e]; simpl; [eauto | done]. Qed.

Lemma float_field_or row k d dz f :
  DecodeFrame.float_field row k = Ok f ->
  float_or (row_get_default row k d) dz = Ok f.
Proof.
  unfold DecodeFrame.float_field, row_getitem, row_get_default, float_or.
  destruct (row !! k) as [[s|]|]; simpl; try done.
  destruct (String.eqb s "") eqn:E; [|done].
  apply String.eqb_eq in E. by subst s.
Qed.

Lemma int_float_field_or row k d dz z :
  DecodeFrame.float_field row k ≫= int_of_float = Ok z ->
  int_float_or (row_get_default row k d) dz = Ok z.
Proof.
  intros (f & Hf & Hz)%bind_ok_inv. unfold int_float_or.
  by rewrite (float_field_or _ _ d dz _ Hf).
Qed.

(** A row that both tools accept decodes alike: when the log decoder loads
    the row as [sd], the frame decoder prints [p] for it, and the frame
    decoder's substring tests give the flags [sd] carries, the log decoder
    decodes [sd] on the same bytes without an exception, with the raw value
    and the scaled value the frame decoder prints. *)
Theorem decoders_agree
    (row : dict_row) (sd : SignalDef) (data : list Byte.byte)
    (p : DecodeFrame.Printed) (ts : option string) (cid : Z) :
  load_signal_row row = Ok (Some sd) ->
  DecodeFrame.decode_row data row = Ok p ->
  frame_flags row = Some (signed sd, big_endian sd) ->
  exists o,
    decode_signal ts cid data sd = Ok o
    /\ out_raw o = DecodeFrame.p_raw p
    /\ out_value o = DecodeFrame.p_value p.
Proof.
  intros Hload Hdec Hflags.
  unfold DecodeFrame.decode_row in Hdec.
  apply bind_ok_inv in Hdec as (nm & _ & Hdec).
  apply bind_ok_inv in Hdec as (un & _ & Hdec).
  apply bind_ok_inv in Hdec as (sb & Hsb & Hdec).
  apply bind_ok_inv in Hdec as (bl & Hbl & Hdec).
  apply bind_ok_inv in Hdec as (off & Hoff & Hdec).
  apply bind_ok_inv in Hdec as (sc & Hsc & Hdec).
  apply bind_ok_inv in Hdec as (sg & Hsg & Hdec).
  apply bind_ok_inv in Hdec as (en & Hen & Hdec).
  apply bind_ok_inv in Hdec as (raw0 & Hraw0 & Hdec).
  apply bind_ok_inv in Hdec as (raw & Hraw & Hdec).
  apply bind_ok_inv in Hdec as (fraw & Hfraw & Hdec).
  injection Hdec as <-.
  apply bind_ok_inv in Hsg as (sv & Hsv & Hsg).
  apply bind_ok_inv in Hen as (ev & Hev & Hen).
  unfold frame_flags, row_get in Hflags. unfold row_getitem in Hsv, Hev.
  destruct (row !! "signedness") as [[s|]|]; try done.
  destruct (row !! "endian") as [[e|]|]; try done.
  injection Hsv as <-. injection Hev as <-.
  injection Hsg as <-. injection Hen as <-.
  injection Hflags as Hs He.
  unfold load_signal_row in Hload.
  destruct (negb _ || negb _); [done|].
  apply bind_ok_inv in Hload as (ct & _ & Hload).
  apply bind_ok_inv in Hload as (c & _ & Hload).
  apply bind_ok_inv in Hload as (nm' & _ & Hload).
  apply bind_ok_inv in Hload as (un' & _ & Hload).
  rewrite (int_float_field_or _ _ "0" 0 _ Hsb) in Hload.
  rewrite (int_float_field_or _ _ "1" 1 _ Hbl) in Hload.
  rewrite (float_field_or _ _ "0" 0 _ Hoff) in Hload.
  rewrite (float_field_or _ _ "1" 1 _ Hsc) in Hload.
  simpl in Hload.
  apply bind_ok_inv in Hload as (sg' & _ & Hload).
  apply bind_ok_inv in Hload as (en' & _ & Hload).
  apply bind_ok_inv in Hload as (dl & _ & Hload).
  injection Hload as <-. simpl in Hs, He. subst sg' en'.
  unfold decode_signal. simpl.
  rewrite Hraw0. simpl. rewrite Hraw. simpl. rewrite Hfraw. simpl.
  by eexists.
Qed.

Lemma decoders_agree_witness :
  exists o,
    decode_signal (Some "1.0") 0x4D1 sample_frame
      {| name := "Speed"; can_id := 0x4D1; units := "kph";
         start_bit := 8; bit_length := 16;
         offset := S754_zero false; scale := f_0_1;
         signed := true; big_endian := false; dlc := 8 |} = Ok o
    /\ out_raw o
       = Codec.twos_complement
           (((Py.int_from_bytes_little sample_frame) `div` (2 ^ 8)) `mod` (2 ^ 16)) 16.
Proof.
  pose (row := mk_row ["Speed"; "0x4D1"; "kph"; "8"; "16"; "0"; "0.1"; "";
                       ""; "signed"; "intel"; "8"]).
  destruct (DecodeFrame.decode_row sample_frame row) as [p|] eqn:Hp;
    [|by vm_compute in Hp].
  destruct (decoders_agree row _ sample_frame p (Some "1.0") 0x4D1
              ltac:(vm_compute; reflexivity) Hp ltac:(vm_compute; reflexivity))
    as (o & Ho & Hraw & _).
  exists o. split; [exact Ho|]. rewrite Hraw.
  vm_compute in Hp. injection Hp as <-. vm_compute. reflexivity.
Defined.

(** *** Tokens the two decoders read differently *)

Lemma space_lower c : isspace (lower_char c) = isspace c.
Proof. destruct c as [[] [] [] [] [] [] [] []]; reflexivity. Qed.

Lemma lower_lstrip s : lower (lstrip s) = lstrip (lower s).
Proof.
  induction s as [|c s IH]; [done|]. simpl. rewrite space_lower.
  by destruct (isspace c).
Qed.

Lemma lower_rev_app s t :
  lower (String.rev_app s t) = String.rev_app (lower s) (lower t).
Proof.
  revert t. induction s as [|c s IH]; intros t; [done|]. simpl. by rewrite IH.
Qed.

Lemma lower_strip s : lower (strip s) = strip (lower s).
Proof.
  unfold strip, rstrip, String.rev.
  by rewrite lower_rev_app, lower_lstrip, lower_rev_app, lower_lstrip.
Qed.

Lemma contains_sub_cons sub c s :
  DecodeFrame.contains_sub sub (String c s)
  = startswith sub (String c s) || DecodeFrame.contains_sub sub s.
Proof. reflexivity. Qed.

Lemma startswith_space sub c s :
  first_char_is (fun c => negb (isspace c)) sub = true -> isspace c = true ->
  startswith sub (String c s) = false.
Proof.
  destruct sub as [|a sub]; [done|]. simpl. intros Ha Hc.
  destruct (Ascii.eqb_spec a c) as [-> |]; [|done]. by rewrite Hc in Ha.
Qed.

Lemma contains_sub_lstrip sub s :
  first_char_is (fun c => negb (isspace c)) sub = true ->
  DecodeFrame.contains_sub sub (lstrip s) = DecodeFrame.contains_sub sub s.
Proof.
  intros Hsub. induction s as [|c s IH]; [done|].
  rewrite contains_sub_cons. simpl lstrip.
  destruct (isspace c) eqn:E.
  - by rewrite IH, startswith_space.
  - by rewrite contains_sub_cons.
Qed.

Lemma lstrip_split s :
  exists pre, s = pre +:+ lstrip s /\ all_chars isspace pre = true.
Proof.
  induction s as [|c s (pre & Hs & Hp)]; [by exists EmptyString|].
  simpl. destruct (isspace c) eqn:E.
  - exists (String c pre). rewrite append_cons, <- Hs. simpl. by rewrite E, Hp.
  - by exists EmptyString.
Qed.

Lemma rev_app_append s t acc :
  String.rev_app (s +:+ t) acc = String.rev_app t (String.rev_app s acc).
Proof.
  revert acc. induction s as [|c s IH]; intros acc; [done|].
  rewrite append_cons. simpl. by rewrite IH.
Qed.

Lemma rev_app_acc s acc : String.rev_app s acc = String.rev s +:+ acc.
Proof.
  rewrite <- (rev_rev s) at 1. unfold String.rev at 1.
  by rewrite rev_app_rev_app.
Qed.

Lemma rstrip_split s :
  exists post, s = rstrip s +:+ post /\ all_chars isspace post = true.
Proof.
  destruct (lstrip_split (String.rev s)) as (pre & Hs & Hp).
  exists (String.rev pre). split.
  - transitivity (String.rev (pre +:+ lstrip (String.rev s)));
      [by rewrite <- Hs, rev_rev|].
    unfold rstrip. unfold String.rev at 1.
    rewrite rev_app_append, (rev_app_acc (lstrip (String.rev s))). done.
  - unfold String.rev. by rewrite all_chars_rev_app, Hp.
Qed.

Lemma startswith_append_space sub t post :
  all_chars (fun c => negb (isspace c)) sub = true -> sub <> EmptyString ->
  all_chars isspace post = true ->
  startswith sub (t +:+ post) = startswith sub t.
Proof.
  intros Hsub Hne Hpost. revert t.
  induction sub as [|a sub IH]; intros t; [done|].
  simpl in Hsub. apply andb_prop in Hsub as [Ha Hsub].
  destruct t as [|b t].
  - rewrite append_empty_l. destruct post as [|b post]; [done|].
    simpl in Hpost. apply andb_prop in Hpost as [Hb _]. simpl.
    destruct (Ascii.eqb_spec a b) as [-> |]; [|done]. by rewrite Hb in Ha.
  - rewrite append_cons. simpl. destruct sub as [|a' sub]; [done|].
    by rewrite IH.
Qed.

Lemma contains_sub_spaces sub post :
  first_char_is (fun c => negb (isspace c)) sub = true ->
  all_chars isspace post = true ->
  DecodeFrame.contains_sub sub post = false.
Proof.
  intros Hsub. induction post as [|c post IH].
  - by destruct sub.
  - simpl all_chars. intros [Hc Hp]%andb_prop.
    by rewrite contains_sub_cons, startswith_space, IH.
Qed.

Lemma first_of_all sub :
  all_chars (fun c => negb (isspace c)) sub = true -> sub <> EmptyString ->
  first_char_is (fun c => negb (isspace c)) sub = true.
Proof. destruct sub; [done|]. simpl. by intros [? _]%andb_prop. Qed.

Lemma contains_sub_append_space sub t post :
  all_chars (fun c => negb (isspace c)) sub = true -> sub <> EmptyString ->
  all_chars isspace post = true ->
  DecodeFrame.contains_sub sub (t +:+ post) = DecodeFrame.contains_sub sub t.
Proof.
  intros Hsub Hne Hpost. induction t as [|c t IH].
  - rewrite append_empty_l, contains_sub_spaces by auto using first_of_all.
    by destruct sub.
  - rewrite append_cons, !contains_sub_cons, IH.
    by rewrite <- append_cons, startswith_append_space.
Qed.

(** A text without whitespace occurs in [s] exactly when it occurs in
    [s.strip()]. *)
Lemma contains_sub_strip sub s :
  all_chars (fun c => negb (isspace c)) sub = true -> sub <> EmptyString ->
  DecodeFrame.contains_sub sub (strip s) = DecodeFrame.contains_sub sub s.
Proof.
  intros Hsub Hne. unfold strip.
  destruct (rstrip_split (lstrip s)) as (post & Hs & Hp).
  rewrite <- (contains_sub_append_space sub (rstrip (lstrip s)) post) by done.
  rewrite <- Hs. apply contains_sub_lstrip. by apply first_of_all.
Qed.

Lemma load_signal_row_flags row sd :
  load_signal_row row = Ok (Some sd) ->
  classify_signed (row_get_default row "signedness" "") = Ok (signed sd)
  /\ classify_big_endian (row_get_default row "endian" "") = Ok (big_endian sd).
Proof.
  unfold load_signal_row. destruct (negb _ || negb _); [done|].
  intros Hload.
  apply bind_ok_inv in Hload as (ct & _ & Hload).
  apply bind_ok_inv in Hload as (c & _ & Hload).
  apply bind_ok_inv in Hload as (nm & _ & Hload).
  apply bind_ok_inv in Hload as (un & _ & Hload).
  apply bind_ok_inv in Hload as (sb & _ & Hload).
  apply bind_ok_inv in Hload as (bl & _ & Hload).
  apply bind_ok_inv in Hload as (off & _ & Hload).
  apply bind_ok_inv in Hload as (sc & _ & Hload).
  apply bind_ok_inv in Hload as (sg & Hsg & Hload).
  apply bind_ok_inv in Hload as (en & Hen & Hload).
  apply bind_ok_inv in Hload as (dl & _ & Hload).
  injection Hload as <-. done.
Qed.

(** The signedness token: the log decoder takes a definition as signed only
    when the stripped, lower-cased field is one of its five tokens; the frame
    decoder when the lower-cased field contains "signed".  So a field that
    contains "signed" without being it (such as "unsigned") is loaded as
    unsigned by the log decoder and read as signed by the frame decoder. *)
Theorem signedness_read_differently
    (row : dict_row) (sd : SignalDef) (s : string) (fl : bool * bool) :
  load_signal_row row = Ok (Some sd) ->
  frame_flags row = Some fl ->
  row_get row "signedness" = Some s ->
  DecodeFrame.contains_sub "signed" (lower (strip s)) = true ->
  lower (strip s) <> "signed" ->
  signed sd = false /\ fl.1 = true.
Proof.
  intros Hload Hfl Hs Hsub Hne.
  apply load_signal_row_flags in Hload as [Hsg _].
  unfold frame_flags in Hfl. rewrite Hs in Hfl.
  unfold row_get_default in Hsg. unfold row_get in Hs.
  destruct (row !! "signedness") as [v|]; [|done]. subst v.
  simpl in Hsg. injection Hsg as <-.
  split.
  - unfold str_in. simpl.
    repeat match goal with
           | |- context [String.eqb ?a ?b] =>
               destruct (String.eqb_spec a b) as [E|_];
               [first [done | by rewrite E in Hsub] |]
           end.
    done.
  - destruct (row_get row "endian"); [|done]. injection Hfl as <-. simpl.
    by rewrite <- (contains_sub_strip "signed" (lower s)), <- lower_strip.
Qed.

Lemma signedness_read_differently_witness :
  exists sd fl,
    load_signal_row (mk_row ["Speed"; "0x4D1"; "kph"; "0"; "16"; "0"; "0.1";
                             ""; ""; " Unsigned"; "intel"; "8"]) = Ok (Some sd)
    /\ frame_flags (mk_row ["Speed"; "0x4D1"; "kph"; "0"; "16"; "0"; "0.1";
                            ""; ""; " Unsigned"; "intel"; "8"]) = Some fl
    /\ signed sd = false /\ fl.1 = true.
Proof.
  eexists _, _. split; [vm_compute; reflexivity|].
  split; [vm_compute; reflexivity|].
  apply (signedness_read_differently
           (mk_row ["Speed"; "0x4D1"; "kph"; "0"; "16"; "0"; "0.1";
                    ""; ""; " Unsigned"; "intel"; "8"]) _ " Unsigned" _);
    try (vm_compute; reflexivity).
  vm_compute. discriminate.
Defined.

(** The byte-order token: "be", "msb", "0", "true" and "yes" make a
    definition Motorola for the log decoder, and Intel for the frame decoder,
    which looks for "motorola" or "big" in the field. *)
Theorem short_endian_tokens_read_differently
    (row : dict_row) (sd : SignalDef) (e : string) (fl : bool * bool) :
  load_signal_row row = Ok (Some sd) ->
  frame_flags row = Some fl ->
  row_get row "endian" = Some e ->
  str_in (lower (strip e)) ["be"; "msb"; "0"; "true"; "yes"] = true ->
  big_endian sd = true /\ fl.2 = false.
Proof.
  intros Hload Hfl He Htok.
  apply load_signal_row_flags in Hload as [_ Hen].
  unfold frame_flags in Hfl. rewrite He in Hfl.
  unfold row_get_default in Hen. unfold row_get in He.
  destruct (row !! "endian") as [v|]; [|done]. subst v.
  simpl in Hen. injection Hen as <-.
  destruct (row_get row "signedness"); [|done]. injection Hfl as <-. simpl.
  rewrite <- (contains_sub_strip "motorola" (lower e)) by done.
  rewrite <- (contains_sub_strip "big" (lower e)) by done.
  rewrite <- lower_strip.
  unfold str_in in *. simpl in Htok.
  repeat match type of Htok with
         | context [String.eqb ?a ?b] =>
             destruct (String.eqb_spec a b) as [E|_];
             [by rewrite E |]
         end.
  done.
Qed.

Lemma short_endian_tokens_read_differently_witness :
  exists sd fl,
    load_signal_row (mk_row ["Speed"; "0x4D1"; "kph"; "0"; "16"; "0"; "0.1";
                             ""; ""; "signed"; "BE "; "8"]) = Ok (Some sd)
    /\ frame_flags (mk_row ["Speed"; "0x4D1"; "kph"; "0"; "16"; "0"; "0.1";
                            ""; ""; "signed"; "BE "; "8"]) = Some fl
    /\ big_endian sd = true /\ fl.2 = false.
Proof.
  eexists _, _. split; [vm_compute; reflexivity|].
  split; [vm_compute; reflexivity|].
  apply (short_endian_tokens_read_differently
           (mk_row ["Speed"; "0x4D1"; "kph"; "0"; "16"; "0"; "0.1";
                    ""; ""; "signed"; "BE "; "8"]) _ "BE " _);
    vm_compute; reflexivity.
Defined.

(** *** The id written to the output *)

Lemma hex_char_upper_facts d :
  0 <= d < 16 ->
  hex_val (hex_char_upper d) = Some d
  /\ Ascii.eqb (hex_char_upper d) "_" = false
  /\ is_hex_digit (hex_char_upper d) = true.
Proof.
  intros Hd. replace d with (Z.of_nat (Z.to_nat d)) by lia.
  assert (Hn : (Z.to_nat d < 16)%nat) by lia.
  revert Hn. generalize (Z.to_nat d). intros n Hn.
  do 16 (destruct n as [|n]; [repeat split; vm_compute; reflexivity|]).
  lia.
Qed.

Lemma hex_digits_upper fuel n acc :
  0 <= n < 16 ^ Z.of_nat fuel -> (0 < fuel)%nat ->
  exists k, 0 <= k /\ forall a p,
    hex_digits (hex_upper_pos fuel n acc) a p
    = hex_digits acc (16 ^ (k + 1) * a + n) true.
Proof.
  revert n acc. induction fuel as [|fuel IH]; intros n acc Hn Hfuel; [lia|].
  assert (Hd : 0 <= n `mod` 16 < 16) by (apply Z.mod_pos_bound; lia).
  destruct (hex_char_upper_facts _ Hd) as (Hv & Hu & _).
  pose proof (Z.div_mod n 16 ltac:(lia)) as Hdm.
  simpl hex_upper_pos.
  destruct (Z.eqb_spec (n `div` 16) 0) as [E|E].
  - exists 0. split; [lia|]. intros a p. simpl. rewrite Hu, Hv.
    f_equal. lia.
  - assert (Hq : 0 <= n `div` 16 < 16 ^ Z.of_nat fuel).
    { split; [apply Z.div_pos; lia|].
      apply Z.div_lt_upper_bound; [lia|].
      replace (16 * 16 ^ Z.of_nat fuel) with (16 ^ Z.of_nat (S fuel)); [lia|].
      rewrite Nat2Z.inj_succ, Z.pow_succ_r; lia. }
    assert (Hpos : (0 < fuel)%nat).
    { destruct fuel; [|lia]. simpl in Hq. lia. }
    destruct (IH (n `div` 16)
                 (String (hex_char_upper (n `mod` 16)) acc) Hq Hpos)
      as (k & Hk & Hrec).
    exists (k + 1). split; [lia|]. intros a p. rewrite Hrec. simpl.
    rewrite Hu, Hv. f_equal.
    rewrite (Z.pow_add_r 16 (k + 1) 1) by lia. lia.
Qed.

Lemma hex_upper_pos_hex fuel n acc :
  0 <= n -> all_chars is_hex_digit acc = true ->
  all_chars is_hex_digit (hex_upper_pos fuel n acc) = true.
Proof.
  revert n acc. induction fuel as [|fuel IH]; intros n acc Hn Hacc; [done|].
  assert (Hd : 0 <= n `mod` 16 < 16) by (apply Z.mod_pos_bound; lia).
  destruct (hex_char_upper_facts _ Hd) as (_ & _ & Hh).
  simpl hex_upper_pos.
  destruct (n `div` 16 =? 0).
  - simpl. by rewrite Hh, Hacc.
  - apply IH; [apply Z.div_pos; lia|]. simpl. by rewrite Hh, Hacc.
Qed.

Lemma hex_upper_pos_nonempty fuel n acc :
  acc <> EmptyString \/ (0 < fuel)%nat ->
  hex_upper_pos fuel n acc <> EmptyString.
Proof.
  revert n acc. induction fuel as [|fuel IH]; intros n acc H.
  - simpl. destruct H; [done | lia].
  - simpl. destruct (n `div` 16 =? 0); [done|]. apply IH. by left.
Qed.

Lemma format_X_fuel n : 0 <= n -> n < 16 ^ Z.of_nat (S (Z.to_nat (Z.log2 n))).
Proof.
  intros Hn. rewrite Nat2Z.inj_succ, Z2Nat.id by apply Z.log2_nonneg.
  destruct (Z.eq_dec n 0) as [-> | Hne]; [done|].
  pose proof (Z.log2_spec n ltac:(lia)) as [_ Hlt].
  pose proof (Z.log2_nonneg n).
  apply Z.lt_le_trans with (1 := Hlt).
  change 16 with (2 ^ 4). rewrite <- Z.pow_mul_r by lia.
  apply Z.pow_le_mono_r; lia.
Qed.

(** [int("0x" + format(n, "X"), 16)] is [n]. *)
Lemma int_base16_format_X n :
  0 <= n ->
  strip ("0x" +:+ format_X n) = "0x" +:+ format_X n
  /\ int_base16 ("0x" +:+ format_X n) = Ok n.
Proof.
  intros Hn. unfold format_X.
  destruct (Z.ltb_spec n 0) as [|_]; [lia|].
  set (fuel := S (Z.to_nat (Z.log2 n))).
  pose proof (format_X_fuel n Hn) as Hfuel. fold fuel in Hfuel.
  set (ds := hex_upper_pos fuel n EmptyString).
  assert (Hhex : all_chars is_hex_digit ds = true)
    by (by apply hex_upper_pos_hex).
  assert (Hne : ds <> EmptyString)
    by (apply hex_upper_pos_nonempty; right; unfold fuel; lia).
  destruct (hex_digits_upper fuel n EmptyString ltac:(lia) ltac:(unfold fuel; lia))
    as (k & Hk & Hds).
  fold ds in Hds.
  assert (Hstrip : strip ("0x" +:+ ds) = "0x" +:+ ds).
  { apply strip_no_space. rewrite !append_cons, append_empty_l. simpl.
    by apply hex_no_space. }
  split; [done|].
  unfold int_base16. rewrite Hstrip.
  rewrite !append_cons, append_empty_l.
  destruct ds as [|c r]; [done|].
  simpl in Hhex. apply andb_prop in Hhex as [Hc _].
  destruct (hex_char_facts c Hc) as (_ & _ & _ & Hu & _).
  cbn -[hex_digits].
  assert (Hr : match String c r with String "_" r' => r' | _ => String c r end
               = String c r).
  { destruct c as [[] [] [] [] [] [] [] []]; first [discriminate Hu | reflexivity]. }
  rewrite Hr, Hds. simpl. f_equal. lia.
Qed.

(** The id column round-trips: the text the log decoder writes for the id
    of a frame is read back as that id by [parse_can_id] of each of the three
    tools. *)
Theorem written_id_parses_back
    (ts : option string) (cid : Z) (data : list Byte.byte) (sd : SignalDef)
    (o : OutRow) :
  0 <= cid ->
  decode_signal ts cid data sd = Ok o ->
  DecodeLog.parse_can_id (out_can_id o) = Ok cid
  /\ DecodeFrame.parse_can_id (out_can_id o) = Ok cid
  /\ CsvToDbc.parse_can_id (out_can_id o) = Ok cid.
Proof.
  intros Hcid Hdec. unfold decode_signal in Hdec.
  apply bind_ok_inv in Hdec as (raw0 & _ & Hdec).
  apply bind_ok_inv in Hdec as (raw & _ & Hdec).
  apply bind_ok_inv in Hdec as (fraw & _ & Hdec).
  injection Hdec as <-. simpl.
  destruct (int_base16_format_X cid Hcid) as [Hstrip Hint].
  unfold DecodeLog.parse_can_id, DecodeFrame.parse_can_id, CsvToDbc.parse_can_id.
  cbv zeta. rewrite Hstrip.
  assert (Hpre : startswith "0x" (lower ("0x" +:+ format_X cid)) = true)
    by (by rewrite !append_cons, append_empty_l).
  by rewrite Hpre, Hint.
Qed.

Lemma written_id_parses_back_witness :
  exists o,
    decode_signal (Some "1.0") 0x4D1 sample_frame (example_signal "S" "u" 8) = Ok o
    /\ DecodeLog.parse_can_id (out_can_id o) = Ok 0x4D1.
Proof.
  destruct (decode_signal (Some "1.0") 0x4D1 sample_frame (example_signal "S" "u" 8))
    as [o|] eqn:Ho; [|by vm_compute in Ho].
  exists o. split; [done|].
  apply (written_id_parses_back (Some "1.0") 0x4D1 sample_frame
           (example_signal "S" "u" 8) o); [lia | exact Ho].
Defined.

(** *** The DBC serializer and the log decoder on the same row *)

Lemma lstrip_head s :
  lstrip s = EmptyString
  \/ first_char_is (fun c => negb (isspace c)) (lstrip s) = true.
Proof.
  induction s as [|c s IH]; [by left|]. simpl.
  destruct (isspace c) eqn:E; [done|]. right. simpl. by rewrite E.
Qed.

Lemma lstrip_fixed s :
  s = EmptyString \/ first_char_is (fun c => negb (isspace c)) s = true ->
  lstrip s = s.
Proof.
  intros [-> | H]; [done|]. destruct s as [|c s]; [done|].
  simpl in *. by destruct (isspace c).
Qed.

Lemma lstrip_lstrip s : lstrip (lstrip s) = lstrip s.
Proof. apply lstrip_fixed, lstrip_head. Qed.

Lemma rstrip_rstrip s : rstrip (rstrip s) = rstrip s.
Proof. unfold rstrip. by rewrite rev_rev, lstrip_lstrip. Qed.

Lemma lstrip_rstrip_lstrip s : lstrip (rstrip (lstrip s)) = rstrip (lstrip s).
Proof.
  apply lstrip_fixed.
  destruct (rstrip_split (lstrip s)) as (post & Hs & Hp).
  destruct (rstrip (lstrip s)) as [|c r] eqn:E; [by left|]. right.
  destruct (lstrip_head s) as [H0 | H1]; [by rewrite H0 in Hs|].
  rewrite Hs in H1. by rewrite append_cons in H1.
Qed.

Lemma strip_strip s : strip (strip s) = strip s.
Proof. unfold strip. by rewrite lstrip_rstrip_lstrip, rstrip_rstrip. Qed.

Lemma float_of_text_strip s : float_of_text (strip s) = float_of_text s.
Proof. unfold float_of_text. by rewrite strip_strip. Qed.

Lemma float_of_text_blank s :
  strip s = EmptyString -> float_of_text s = Raise ValueError.
Proof. intros H. unfold float_of_text. by rewrite H. Qed.

Lemma parse_float_float_or v df d f f' :
  float_of_int d = Ok df ->
  CsvToDbc.parse_float v df = Ok f -> float_or v d = Ok f' -> f = f'.
Proof.
  intros Hd. unfold CsvToDbc.parse_float, float_or, or_empty.
  destruct v as [s|]; [|simpl; congruence].
  destruct (String.eqb s "") eqn:E.
  - apply String.eqb_eq in E. subst s. simpl. congruence.
  - destruct (String.eqb (strip s) "") eqn:E'.
    + apply String.eqb_eq in E'. by rewrite (float_of_text_blank s E').
    + rewrite float_of_text_strip. congruence.
Qed.

Lemma parse_int_int_float_or v d z z' :
  float_of_int d ≫= int_of_float = Ok d ->
  CsvToDbc.parse_int v d = Ok z -> int_float_or v d = Ok z' -> z = z'.
Proof.
  intros Hd.
  assert (Hd' : float_of_int d ≫= (fun f => int_of_float f) = Ok d) by exact Hd.
  unfold CsvToDbc.parse_int, int_float_or, float_or, or_empty.
  destruct v as [s|]; [|simpl; congruence].
  destruct (String.eqb s "") eqn:E.
  - apply String.eqb_eq in E. subst s. simpl. congruence.
  - destruct (String.eqb (strip s) "") eqn:E'.
    + apply String.eqb_eq in E'. by rewrite (float_of_text_blank s E').
    + rewrite float_of_text_strip. congruence.
Qed.

Lemma parse_int_row row k ds d z z' :
  float_of_int d ≫= int_of_float = Ok d ->
  int_float_or (Some ds) d = Ok d ->
  CsvToDbc.parse_int (row_get_default row k "") d = Ok z ->
  int_float_or (row_get_default row k ds) d = Ok z' -> z = z'.
Proof.
  intros Hd Hds. unfold row_get_default.
  destruct (row !! k) as [v|]; [by apply parse_int_int_float_or|].
  rewrite Hds. unfold CsvToDbc.parse_int. simpl. congruence.
Qed.

Lemma parse_float_row row k ds d df f f' :
  float_of_int d = Ok df ->
  float_or (Some ds) d = Ok df ->
  CsvToDbc.parse_float (row_get_default row k "") df = Ok f ->
  float_or (row_get_default row k ds) d = Ok f' -> f = f'.
Proof.
  intros Hd Hds. unfold row_get_default.
  destruct (row !! k) as [v|]; [by apply parse_float_float_or|].
  rewrite Hds. unfold CsvToDbc.parse_float. simpl. congruence.
Qed.

(** The [SG_] line the DBC serializer writes for a row describes the signal
    the log decoder loads from it: the same start bit, length, scale,
    offset and units, the sign character "-" exactly for a signed
    definition, and byte order 0 exactly for a Motorola one unless the
    endian token is "0" or "1". *)
Theorem dbc_signal_matches_loaded
    (row : dict_row) (sd : SignalDef) (nm un : string) (sb bl en : Z)
    (sgc : ascii) (sc off vmin vmax : float) :
  load_signal_row row = Ok (Some sd) ->
  CsvToDbc.signal_line row
  = Ok (CsvToDbc.SG nm sb bl en sgc sc off vmin vmax un) ->
  start_bit sd = sb /\ bit_length sd = bl
  /\ scale sd = sc /\ offset sd = off /\ units sd = un
  /\ sgc = (if signed sd then "-" else "+")%char
  /\ (forall e, row_get_default row "endian" "" = Some e ->
        str_in (lower (strip e)) ["0"; "1"] = false ->
        en = if big_endian sd then 0 else 1).
Proof.
  intros Hload Hsg.
  unfold load_signal_row in Hload. destruct (negb _ || negb _); [done|].
  apply bind_ok_inv in Hload as (ct & _ & Hload).
  apply bind_ok_inv in Hload as (c & _ & Hload).
  apply bind_ok_inv in Hload as (nm' & _ & Hload).
  apply bind_ok_inv in Hload as (un' & Hun & Hload).
  apply bind_ok_inv in Hload as (sb' & Hsb & Hload).
  apply bind_ok_inv in Hload as (bl' & Hbl & Hload).
  apply bind_ok_inv in Hload as (off' & Hoff & Hload).
  apply bind_ok_inv in Hload as (sc' & Hsc & Hload).
  apply bind_ok_inv in Hload as (sg' & Hsgn & Hload).
  apply bind_ok_inv in Hload as (en' & Hen & Hload).
  apply bind_ok_inv in Hload as (dl & _ & Hload).
  injection Hload as <-. simpl.
  unfold CsvToDbc.signal_line in Hsg.
  apply bind_ok_inv in Hsg as (n0 & _ & Hsg).
  apply bind_ok_inv in Hsg as (n1 & _ & Hsg).
  apply bind_ok_inv in Hsg as (sb0 & Hsb0 & Hsg).
  apply bind_ok_inv in Hsg as (bl0 & Hbl0 & Hsg).
  apply bind_ok_inv in Hsg as (off0 & Hoff0 & Hsg).
  apply bind_ok_inv in Hsg as (sc0 & Hsc0 & Hsg).
  apply bind_ok_inv in Hsg as (vmin0 & _ & Hsg).
  apply bind_ok_inv in Hsg as (vmax0 & _ & Hsg).
  injection Hsg as <- <- <- <- <- <- <- <- <- <-.
  unfold classify_signed, classify_big_endian, strip_method in *.
  unfold CsvToDbc.is_signed, CsvToDbc.is_big_endian.
  destruct (row_get_default row "units" "") as [u|]; [|done].
  destruct (row_get_default row "signedness" "") as [sv|]; [|done].
  destruct (row_get_default row "endian" "") as [ev|]; [|done].
  simpl in *. injection Hun as <-. injection Hsgn as <-. injection Hen as <-.
  split; [symmetry; by eapply (parse_int_row row "start_bit" "0" 0)|].
  split; [symmetry; by eapply (parse_int_row row "bit_length" "1" 1)|].
  split; [symmetry; by eapply (parse_float_row row "scale" "1" 1)|].
  split; [symmetry; by eapply (parse_float_row row "offset" "0" 0)|].
  split; [done|]. split; [done|].
  intros e [= <-] Htok. unfold str_in in *. simpl in *.
  destruct (String.eqb (lower (strip ev)) "0"); [done|].
  destruct (String.eqb (lower (strip ev)) "1"); [done|]. done.
Qed.

Lemma dbc_signal_matches_loaded_witness :
  exists sd nm un sb bl en sgc sc off vmin vmax,
    load_signal_row (mk_row ["Speed"; "0x4D1"; " kph"; "8"; "16"; ""; "0.1";
                             ""; ""; "signed"; "motorola"; "8"]) = Ok (Some sd)
    /\ CsvToDbc.signal_line
         (mk_row ["Speed"; "0x4D1"; " kph"; "8"; "16"; ""; "0.1";
                  ""; ""; "signed"; "motorola"; "8"])
       = Ok (CsvToDbc.SG nm sb bl en sgc sc off vmin vmax un)
    /\ start_bit sd = sb /\ bit_length sd = bl
    /\ scale sd = sc /\ offset sd = off /\ units sd = un.
Proof.
  do 11 eexists. split; [vm_compute; reflexivity|].
  split; [vm_compute; reflexivity|].
  destruct (dbc_signal_matches_loaded
              (mk_row ["Speed"; "0x4D1"; " kph"; "8"; "16"; ""; "0.1";
                       ""; ""; "signed"; "motorola"; "8"])
              _ _ _ _ _ _ _ _ _ _ _
              ltac:(vm_compute; reflexivity) ltac:(vm_compute; reflexivity))
    as (H1 & H2 & H3 & H4 & H5 & _).
  repeat split; assumption.
Defined.

End CrossTool.
